(** * oscillatord: the disciplining loop of [src/oscillatord.c]

    A shallow embedding of the [do { ... } while (loop && turns != 1)] loop of
    [main], of [signal_handler] and of [apply_phase_offset].  One loop
    iteration consumes one [cycle_env]: the values the operating system, the
    oscillator driver, the GNSS receiver and the disciplining library hand
    back during that iteration.  Each iteration produces the list of external
    calls it made, so that what is written to the PPS device, which library
    entry points are reached and whether the process sleeps can be observed. *)

From Stdlib Require Import ZArith List Bool Lia.
Import ListNotations.
Local Open Scope Z_scope.

(** ** Machine integers *)

(** [unsigned int] on the target: values modulo 2^32. *)
Definition uint32 (z : Z) : Z := z mod 4294967296.

(** [int] and [int32_t]: two's complement, 32 bits, wrapping. *)
Definition sint32 (z : Z) : Z := (z + 2147483648) mod 4294967296 - 2147483648.

Definition INT32_MIN : Z := -2147483648.
Definition INT32_MAX : Z := 2147483647.
Definition UINT_MAX : Z := 4294967295.

Definition in_int32 (z : Z) : Prop := INT32_MIN <= z <= INT32_MAX.
Definition in_uint32 (z : Z) : Prop := 0 <= z <= UINT_MAX.

(** [a * b] on [int]. *)
Definition mul32 (a b : Z) : Z := sint32 (a * b).

(** Unary minus on [int]. *)
Definition neg32 (a : Z) : Z := sint32 (- a).

(** ** Constants of the C library and of the program *)

(** [stdlib.h] and [errno.h], with their values on Linux. *)
Definition EXIT_SUCCESS : Z := 0.
Definition EXIT_FAILURE : Z := 1.
Definition EINTR : Z := 4.
Definition EAGAIN : Z := 11.
Definition ENOSYS : Z := 38.

(** [#define LOOP_TIMEOUT 4] *)
Definition LOOP_TIMEOUT : Z := 4.

(** Modelled from the spec: [NS_IN_SECOND] comes from [utils.h], which is not
    part of the sources at hand; the specification's [NS_PER_SECOND] is one
    second's worth of nanoseconds. *)
Definition NS_IN_SECOND : Z := 1000000000.

(** ** Data exchanged with the collaborators *)

(** Modelled from the spec: the result of [gnss_get_data] ([gnss.h] is not
    part of the sources at hand); the poll yields one of these four values. *)
Inductive gnss_state : Type :=
| GNSS_INVALID
| GNSS_WAITING
| GNSS_VALID
| GNSS_ERROR.

(** Modelled from the spec: the actions of the disciplining library
    ([oscillator-disciplining.h] is not part of the sources at hand). *)
Inductive output_action : Type :=
| NONE
| ADJUST_FINE
| ADJUST_COARSE
| PHASE_JUMP
| CALIBRATE.

Record timespec : Type := { tv_sec : Z; tv_nsec : Z }.

(** [struct od_input] *)
Record od_input : Type := {
  phase_error : timespec;
  valid : bool;
  lock : bool;
  temperature : Z;
  qErr : Z;
  fine_setpoint : Z;
  coarse_setpoint : Z
}.

(** [struct od_output] *)
Record od_output : Type := {
  setpoint : Z;
  action : output_action;
  value_phase_ctrl : Z
}.

(** [struct oscillator_ctrl]; its [lock] member is [ctrl_lock] here. *)
Record oscillator_ctrl : Type := {
  fine_ctrl : Z;
  coarse_ctrl : Z;
  ctrl_lock : bool
}.

(** The calibration records are opaque to the loop: only their identity is
    passed along.  [None] stands for a [NULL] pointer. *)
Inductive calibration_parameters : Type := CalibrationParameters (id : Z).
Inductive calibration_results : Type := CalibrationResults (id : Z).

(** ** The environment of one iteration *)

Record cycle_env : Type := {
  (** SIGINT/SIGTERM deliveries while the process is blocked in [select] *)
  signals : nat;
  (** [select(fd + 1, &rfds, NULL, NULL, &tv)] *)
  select_ret : Z;
  select_errno : Z;
  (** [read(fd, &phase_error, sizeof(phase_error))] *)
  read_ret : Z;
  read_errno : Z;
  read_phase_error : Z;
  (** [oscillator_get_temp(oscillator, &temperature)] *)
  get_temp_ret : Z;
  get_temp_value : Z;
  (** [gnss_get_data(&gnss)] and [gnss.data.qErr] *)
  gnss_ret : gnss_state;
  gnss_qErr : Z;
  (** [oscillator_get_ctrl(oscillator, &ctrl_values)] *)
  ctrl_values : oscillator_ctrl;
  (** [od_process(od, &input, &output)] *)
  od_process_ret : Z;
  od_process_output : od_output;
  (** [write(fd, &phase_error, sizeof(phase_error))] in [apply_phase_offset] *)
  write_ret : Z;
  write_errno : Z;
  (** [od_get_calibration_parameters(od)] *)
  calib_params : option calibration_parameters;
  (** [oscillator_calibrate(oscillator, calib_params, fd, sign)] *)
  calib_results : option calibration_results;
  (** [oscillator_apply_output(oscillator, &output)] *)
  apply_output_ret : Z
}.

(** ** External calls, as observed from outside the process *)

Inductive call : Type :=
| sys_select (timeout : Z)
| sys_read
| sys_write (value : Z)
| sys_sleep (seconds : Z)
| call_oscillator_get_temp
| call_gnss_get_data
| call_oscillator_get_ctrl
| call_od_process (input : od_input)
| call_od_get_calibration_parameters
| call_oscillator_calibrate (params : calibration_parameters) (sign : Z)
| call_od_calibrate (params : calibration_parameters)
    (results : calibration_results)
| call_oscillator_apply_output (output : od_output)
| call_od_destroy.

(** ** The variables of [main] that live across iterations *)

Record run_state : Type := {
  turns : Z;               (* unsigned int turns *)
  loop : bool;             (* static volatile int loop *)
  ignore_next_irq : bool   (* bool ignore_next_irq *)
}.

Definition set_turns (st : run_state) (t : Z) : run_state :=
  {| turns := t; loop := loop st; ignore_next_irq := ignore_next_irq st |}.
Definition set_loop (st : run_state) (b : bool) : run_state :=
  {| turns := turns st; loop := b; ignore_next_irq := ignore_next_irq st |}.
Definition set_ignore_next_irq (st : run_state) (b : bool) : run_state :=
  {| turns := turns st; loop := loop st; ignore_next_irq := b |}.

(** ** Control flow inside the loop body *)

(** A statement of the body either falls through to the next statement,
    executes [continue], or leaves the process through [exit]. *)
Inductive flow (A : Type) : Type :=
| Next (a : A)
| Continue (st : run_state)
| Exit (status : Z).
Arguments Next {A} a.
Arguments Continue {A} st.
Arguments Exit {A} status.

(** Calls made so far, and how control leaves. *)
Definition M (A : Type) : Type := (list call * flow A)%type.

Definition ret {A : Type} (a : A) : M A := ([], Next a).

Definition bind {A B : Type} (m : M A) (f : A -> M B) : M B :=
  match m with
  | (l, Next a) => let (l', r) := f a in (l ++ l', r)
  | (l, Continue st) => (l, Continue st)
  | (l, Exit status) => (l, Exit status)
  end.

Notation "x <- m ;; k" := (bind m (fun x => k))
  (at level 61, m at next level, right associativity).
Notation "m ;;; k" := (bind m (fun _ => k))
  (at level 61, right associativity).

Definition do_call (c : call) : M unit := ([c], Next tt).

Definition continue {A : Type} (st : run_state) : M A := ([], Continue st).

(** [error(status, errnum, ...)] with a nonzero [status]: prints a diagnostic
    and calls [exit(status)].  Every call site passes [EXIT_FAILURE]; the
    [errnum] and the message only shape the diagnostic. *)
Definition error {A : Type} (status : Z) : M A := ([], Exit status).

(** [exit(status)] *)
Definition exit {A : Type} (status : Z) : M A := ([], Exit status).

(** ** [signal_handler] *)

Definition signal_handler (st : run_state) : M run_state :=
  if negb (loop st) then exit EXIT_FAILURE
  else ret (set_loop st false).

Fixpoint deliver_signals (n : nat) (st : run_state) : M run_state :=
  match n with
  | O => ret st
  | S n' => st' <- signal_handler st ;; deliver_signals n' st'
  end.

(** ** [apply_phase_offset] *)

Definition apply_phase_offset (e : cycle_env) (phase_error : Z) : M Z :=
  do_call (sys_write phase_error) ;;;
  if write_ret e =? -1 then ret (- write_errno e)
  else ret (write_ret e).

(** ** The body of the loop *)

(** Lines 235-246: the input record handed to [od_process]. *)
Definition build_input (sign phase_error : Z) (pps_valid : bool)
    (ctrl : oscillator_ctrl) (temperature qErr : Z) : od_input :=
  {| phase_error :=
       {| tv_sec := Z.quot (mul32 sign phase_error) NS_IN_SECOND;
          tv_nsec := Z.rem (mul32 sign phase_error) NS_IN_SECOND |};
     valid := pps_valid;
     lock := ctrl_lock ctrl;
     temperature := temperature;
     qErr := qErr;
     fine_setpoint := fine_ctrl ctrl;
     coarse_setpoint := coarse_ctrl ctrl |}.

(** Lines 167-183: the bounded wait on the PPS device. *)
Definition wait_for_event (e : cycle_env) (st : run_state) : M run_state :=
  do_call (sys_select LOOP_TIMEOUT) ;;;
  st <- deliver_signals (signals e) st ;;
  if select_ret e =? 0 then error EXIT_FAILURE
  else if select_ret e =? -1 then
    if select_errno e =? EINTR then continue st
    else error EXIT_FAILURE
  else ret st.

(** Lines 185-192: reading the phase error. *)
Definition read_sample (e : cycle_env) (st : run_state) : M Z :=
  do_call sys_read ;;;
  if read_ret e =? -1 then
    if (read_errno e =? EAGAIN) || (read_errno e =? EINTR) then continue st
    else error EXIT_FAILURE
  else ret (read_phase_error e).

(** Lines 195-199: dropping the sample that follows a phase jump. *)
Definition honor_ignore_next_irq (st : run_state) : M run_state :=
  if ignore_next_irq st then continue (set_ignore_next_irq st false)
  else ret st.

(** Lines 201-206: the temperature, 0 when the oscillator has no sensor. *)
Definition get_temperature (e : cycle_env) : M Z :=
  do_call call_oscillator_get_temp ;;;
  if get_temp_ret e =? - ENOSYS then ret 0
  else if get_temp_ret e <? 0 then error EXIT_FAILURE
  else ret (get_temp_value e).

(** Lines 208-224: polling the receiver. *)
Definition poll_gnss (e : cycle_env) : M bool :=
  do_call call_gnss_get_data ;;;
  match gnss_ret e with
  | GNSS_INVALID | GNSS_WAITING => ret false
  | GNSS_VALID => ret true
  | GNSS_ERROR => error EXIT_FAILURE
  end.

(** Lines 226-227: the control values; the return code is not looked at. *)
Definition get_ctrl (e : cycle_env) : M oscillator_ctrl :=
  do_call call_oscillator_get_ctrl ;;;
  ret (ctrl_values e).

(** Lines 257-260: the disciplining library decides. *)
Definition process (e : cycle_env) (input : od_input) : M od_output :=
  do_call (call_od_process input) ;;;
  if od_process_ret e <? 0 then error EXIT_FAILURE
  else ret (od_process_output e).

(** Lines 275-299: carrying out the decision. *)
Definition dispatch (sign : Z) (e : cycle_env) (st : run_state)
    (output : od_output) : M run_state :=
  match action output with
  | PHASE_JUMP =>
      r <- apply_phase_offset e (neg32 (value_phase_ctrl output)) ;;
      if r <? 0 then error EXIT_FAILURE
      else ret (set_ignore_next_irq st true)
  | CALIBRATE =>
      do_call call_od_get_calibration_parameters ;;;
      match calib_params e with
      | None => error EXIT_FAILURE
      | Some params =>
          do_call (call_oscillator_calibrate params sign) ;;;
          match calib_results e with
          | None => error EXIT_FAILURE
          | Some results =>
              do_call (call_od_calibrate params results) ;;;
              ret st
          end
      end
  | _ =>
      do_call (call_oscillator_apply_output output) ;;;
      if apply_output_ret e <? 0 then error EXIT_FAILURE
      else ret st
  end.

(** Lines 167-199: from the wait to a sample that is to be processed. *)
Definition acquire (e : cycle_env) (st : run_state) : M (run_state * Z) :=
  st <- wait_for_event e st ;;
  sample <- read_sample e st ;;
  st <- honor_ignore_next_irq st ;;
  ret (st, sample).

(** Lines 201-246: the state of the collaborators, merged with the sample. *)
Definition collect (sign : Z) (e : cycle_env) (sample : Z) : M od_input :=
  temperature <- get_temperature e ;;
  pps_valid <- poll_gnss e ;;
  ctrl <- get_ctrl e ;;
  ret (build_input sign sample pps_valid ctrl temperature (gnss_qErr e)).

(** Lines 167-300: the body after [turns--]. *)
Definition body (sign : Z) (e : cycle_env) (st : run_state) : M run_state :=
  acquired <- acquire e st ;;
  input <- collect sign e (snd acquired) ;;
  output <- process e input ;;
  st <- dispatch sign e (fst acquired) output ;;
  do_call (sys_sleep 5) ;;;
  ret st.

(** ** The loop *)

(** How an iteration leaves the process: still looping, or gone. *)
Inductive outcome : Type :=
| Running (st : run_state)
| Exited (status : Z).

(** Line 166: [turns--]. *)
Definition decrement_turns (st : run_state) : run_state :=
  set_turns st (uint32 (turns st - 1)).

(** Line 301: [loop && turns != 1]. *)
Definition loop_condition (st : run_state) : bool :=
  loop st && negb (turns st =? 1).

(** Lines 301-305: the loop test and what follows the loop.  The cleanup
    handlers that run when [main] returns are [handlers_on_return]. *)
Definition after_body (l : list call) (st : run_state)
    : list call * outcome :=
  if loop_condition st then (l, Running st)
  else (l ++ [call_od_destroy], Exited EXIT_SUCCESS).

(** One pass through [do { ... } while (...)]. *)
Definition iteration (sign : Z) (st : run_state) (e : cycle_env)
    : list call * outcome :=
  match body sign e (decrement_turns st) with
  | (l, Next st') => after_body l st'
  | (l, Continue st') => after_body l st'
  | (l, Exit status) => (l, Exited status)
  end.

Record run_result : Type := {
  trace : list call;
  iterations : nat;
  final : outcome
}.

(** The loop against the environments of its successive iterations. *)
Fixpoint run (sign : Z) (st : run_state) (envs : list cycle_env)
    : run_result :=
  match envs with
  | [] => {| trace := []; iterations := 0; final := Running st |}
  | e :: envs' =>
      match iteration sign st e with
      | (l, Running st') =>
          let r := run sign st' envs' in
          {| trace := l ++ trace r;
             iterations := S (iterations r);
             final := final r |}
      | (l, Exited status) =>
          {| trace := l; iterations := 1; final := Exited status |}
      end
  end.

(** ** From the configuration to the first iteration *)

(** Lines 112-113: [turns = (value != NULL) ? atoll(value) : 0], the
    conversion to [unsigned int] included. *)
Definition configured_turns (value : option Z) : Z :=
  match value with
  | Some n => uint32 n
  | None => 0
  end.

(** Line 151: [sign = opposite_phase_error ? -1 : 1]. *)
Definition configured_sign (opposite_phase_error : bool) : Z :=
  if opposite_phase_error then -1 else 1.

Definition initial_state (value : option Z) : run_state :=
  {| turns := configured_turns value; loop := true;
     ignore_next_irq := false |}.

(** ** Sample environments *)

Definition idle_output : od_output :=
  {| setpoint := 0; action := NONE; value_phase_ctrl := 0 |}.

(** A PPS event arrives, every collaborator answers, nothing is asked of the
    oscillator beyond the default [oscillator_apply_output]. *)
Definition quiet_cycle : cycle_env :=
  {| signals := 0;
     select_ret := 1; select_errno := 0;
     read_ret := 4; read_errno := 0; read_phase_error := 0;
     get_temp_ret := 0; get_temp_value := 0;
     gnss_ret := GNSS_VALID; gnss_qErr := 0;
     ctrl_values := {| fine_ctrl := 0; coarse_ctrl := 0; ctrl_lock := true |};
     od_process_ret := 0; od_process_output := idle_output;
     write_ret := 4; write_errno := 0;
     calib_params := None; calib_results := None;
     apply_output_ret := 0 |}.

(** The select fails with [EINTR], no termination signal involved. *)
Definition interrupted_wait : cycle_env :=
  {| signals := 0;
     select_ret := -1; select_errno := EINTR;
     read_ret := 4; read_errno := 0; read_phase_error := 0;
     get_temp_ret := 0; get_temp_value := 0;
     gnss_ret := GNSS_VALID; gnss_qErr := 0;
     ctrl_values := {| fine_ctrl := 0; coarse_ctrl := 0; ctrl_lock := true |};
     od_process_ret := 0; od_process_output := idle_output;
     write_ret := 4; write_errno := 0;
     calib_params := None; calib_results := None;
     apply_output_ret := 0 |}.

(** A cycle in which the library answers [output], the receiver [gnss], the
    PPS device accepts writes, and calibration yields [params] and
    [results]. *)
Definition deciding_cycle (output : od_output) (gnss : gnss_state)
    (params : option calibration_parameters)
    (results : option calibration_results) : cycle_env :=
  {| signals := 0;
     select_ret := 1; select_errno := 0;
     read_ret := 4; read_errno := 0; read_phase_error := 250;
     get_temp_ret := - ENOSYS; get_temp_value := 0;
     gnss_ret := gnss; gnss_qErr := 0;
     ctrl_values := {| fine_ctrl := 0; coarse_ctrl := 0; ctrl_lock := true |};
     od_process_ret := 0; od_process_output := output;
     write_ret := 4; write_errno := 0;
     calib_params := params; calib_results := results;
     apply_output_ret := 0 |}.

(** ** Classes of iterations *)

(** The wait was interrupted, or the read was interrupted or would block. *)
Definition transient_failure (e : cycle_env) : bool :=
  ((select_ret e =? -1) && (select_errno e =? EINTR))
  || (negb (select_ret e =? 0) && negb (select_ret e =? -1)
      && (read_ret e =? -1)
      && ((read_errno e =? EAGAIN) || (read_errno e =? EINTR))).

(** A PPS event arrives and its sample is read; the process is not killed by
    a second termination signal meanwhile. *)
Definition data_ready (e : cycle_env) : bool :=
  (signals e <=? 1)%nat
  && negb (select_ret e =? 0) && negb (select_ret e =? -1)
  && negb (read_ret e =? -1).

(** The calls of a cycle that stops short of the State Collector. *)
Definition wait_or_read (c : call) : Prop :=
  c = sys_select LOOP_TIMEOUT \/ c = sys_read.


(** The state a [flow] hands to the loop test, if any. *)
Definition resumes {A : Type} (r : flow A) (f : A -> run_state)
    (st' : run_state) : Prop :=
  match r with
  | Next a => f a = st'
  | Continue st => st = st'
  | Exit _ => False
  end.

(** How many iterations a counter value still allows, the wrap below 0
    included. *)
Definition turns_left (t : Z) : Z := uint32 (t - 2) + 1.

(** The input handed to the library in a cycle carries validity [b]. *)
Definition feeds_validity (l : list call) (b : bool) : Prop :=
  (exists input, In (call_od_process input) l) /\
  (forall input, In (call_od_process input) l -> valid input = b).

(** The state once [signal_handler] has run for the signals of an iteration
    (it runs at most once in a process that survives). *)
Definition after_signals (e : cycle_env) (st : run_state) : run_state :=
  match signals e with
  | O => st
  | _ => set_loop st false
  end.

(** The input record of a cycle that gets as far as building one. *)
Definition cycle_input (sign : Z) (e : cycle_env) : od_input :=
  build_input sign (read_phase_error e)
    match gnss_ret e with
    | GNSS_VALID => true
    | _ => false
    end
    (ctrl_values e)
    (if get_temp_ret e =? - ENOSYS then 0 else get_temp_value e)
    (gnss_qErr e).

(** The calls of a cycle up to and including [od_process]. *)
Definition calls_up_to_process (input : od_input) : list call :=
  [sys_select LOOP_TIMEOUT; sys_read; call_oscillator_get_temp;
   call_gnss_get_data; call_oscillator_get_ctrl; call_od_process input].

(** The calls the Action Dispatcher can make. *)
Definition dispatch_call (c : call) : Prop :=
  match c with
  | sys_write _
  | call_od_get_calibration_parameters
  | call_oscillator_calibrate _ _
  | call_od_calibrate _ _
  | call_oscillator_apply_output _ => True
  | _ => False
  end.

(** ** Further vocabulary for the properties *)

(** The same iteration with another number of termination signals. *)
Definition set_signals (e : cycle_env) (n : nat) : cycle_env :=
  {| signals := n;
     select_ret := select_ret e; select_errno := select_errno e;
     read_ret := read_ret e; read_errno := read_errno e;
     read_phase_error := read_phase_error e;
     get_temp_ret := get_temp_ret e; get_temp_value := get_temp_value e;
     gnss_ret := gnss_ret e; gnss_qErr := gnss_qErr e;
     ctrl_values := ctrl_values e;
     od_process_ret := od_process_ret e;
     od_process_output := od_process_output e;
     write_ret := write_ret e; write_errno := write_errno e;
     calib_params := calib_params e; calib_results := calib_results e;
     apply_output_ret := apply_output_ret e |}.

(** What a stop request changes in the way control leaves the body. *)
Definition stop_requested {A : Type} (f : A -> A) (r : flow A) : flow A :=
  match r with
  | Next a => Next (f a)
  | Continue st => Continue (set_loop st false)
  | Exit status => Exit status
  end.

Definition is_phase_jump (a : output_action) : bool :=
  match a with
  | PHASE_JUMP => true
  | _ => false
  end.

(** How many calls of a trace satisfy [p]. *)
Definition count_calls (p : call -> bool) (l : list call) : nat :=
  length (filter p l).

Definition is_select (c : call) : bool :=
  match c with
  | sys_select _ => true
  | _ => false
  end.

Definition is_read (c : call) : bool :=
  match c with
  | sys_read => true
  | _ => false
  end.

Definition is_process (c : call) : bool :=
  match c with
  | call_od_process _ => true
  | _ => false
  end.

Definition is_sleep (c : call) : bool :=
  match c with
  | sys_sleep _ => true
  | _ => false
  end.

(** ** Before the loop: lines 97-164 of [main] *)

(** [signal.h], with the values on Linux. *)
Definition SIGINT : Z := 2.
Definition SIGTERM : Z := 15.

(** What the command line, the configuration and the collaborators answer
    while [main] sets itself up.  Paths and device names do not steer the
    control flow and are left out. *)
Record startup_env : Type := {
  argc : Z;
  (** [config_init(&config, path)] *)
  config_init_ret : Z;
  (** [config_get_bool_default(&config, "debug", false)] *)
  config_debug : bool;
  (** [config_get(&config, "turns")], read through [atoll]; [None] for
      [NULL] *)
  config_turns : option Z;
  (** [oscillator_factory_new(&config) != NULL] *)
  oscillator_created : bool;
  (** [config_get(&config, "pps-device") != NULL] *)
  pps_device_defined : bool;
  (** [open(device, O_RDWR)] *)
  open_ret : Z;
  (** [od_new_from_config(libod_conf_path, err_msg) != NULL] *)
  od_created : bool;
  (** [od_get_dac_min(od)] and [od_get_dac_max(od)] *)
  od_dac_min : Z;
  od_dac_max : Z;
  (** [config_get_bool_default(&config, "opposite-phase-error", false)] *)
  config_opposite_phase_error : bool;
  (** [gnss_init(&config, &gnss)] *)
  gnss_init_ret : Z
}.

(** The calls [main] makes before the loop. *)
Inductive startup_call : Type :=
| startup_config_init
| startup_log_enable_debug (enabled : bool)
| startup_oscillator_factory_new
| startup_oscillator_get_ctrl
| startup_open
| startup_od_new_from_config
| startup_oscillator_set_dac_min (value : Z)
| startup_oscillator_set_dac_max (value : Z)
| startup_gnss_init
| startup_signal (signum : Z).

Inductive startup_result : Type :=
| Started (sign : Z) (st : run_state)
| Failed (status : Z).

(** Lines 100-162.  Every [error(EXIT_FAILURE, ...)] leaves the process. *)
Definition startup (s : startup_env)
    : list startup_call * startup_result :=
  if negb (argc s =? 2) then ([], Failed EXIT_FAILURE)
  else
    let l := [startup_config_init] in
    if negb (config_init_ret s =? 0) then (l, Failed EXIT_FAILURE)
    else
      let l := l ++ [startup_log_enable_debug (config_debug s);
                     startup_oscillator_factory_new] in
      if negb (oscillator_created s) then (l, Failed EXIT_FAILURE)
      else
        let l := l ++ [startup_oscillator_get_ctrl] in
        if negb (pps_device_defined s) then (l, Failed EXIT_FAILURE)
        else
          let l := l ++ [startup_open] in
          if open_ret s =? -1 then (l, Failed EXIT_FAILURE)
          else
            let l := l ++ [startup_od_new_from_config] in
            if negb (od_created s) then (l, Failed EXIT_FAILURE)
            else
              let l := l ++ [startup_oscillator_set_dac_min (od_dac_min s);
                             startup_oscillator_set_dac_max (od_dac_max s);
                             startup_gnss_init] in
              if gnss_init_ret s <? 0 then (l, Failed EXIT_FAILURE)
              else
                (l ++ [startup_signal SIGINT; startup_signal SIGTERM],
                 Started (configured_sign (config_opposite_phase_error s))
                   (initial_state (config_turns s))).

(** The calls of a start-up in which nothing fails. *)
Definition startup_sequence (s : startup_env) : list startup_call :=
  [startup_config_init; startup_log_enable_debug (config_debug s);
   startup_oscillator_factory_new; startup_oscillator_get_ctrl;
   startup_open; startup_od_new_from_config;
   startup_oscillator_set_dac_min (od_dac_min s);
   startup_oscillator_set_dac_max (od_dac_max s);
   startup_gnss_init; startup_signal SIGINT; startup_signal SIGTERM].

(** Every check of the start-up passes. *)
Definition startup_passes (s : startup_env) : bool :=
  (argc s =? 2) && (config_init_ret s =? 0) && oscillator_created s
  && pps_device_defined s && negb (open_ret s =? -1) && od_created s
  && negb (gnss_init_ret s <? 0).

(** [main]: the start-up, then the loop against the environments of its
    iterations.  The handlers that run when [main] returns
    ([cleanup] attributes) are [handlers_on_return]. *)
Definition main (s : startup_env) (envs : list cycle_env)
    : list startup_call * run_result :=
  match startup s with
  | (l, Started sign st) => (l, run sign st envs)
  | (l, Failed status) =>
      (l, {| trace := []; iterations := 0; final := Exited status |})
  end.

(** A start-up in which every step succeeds. *)
Definition plain_startup (value : option Z) (opposite : bool)
    : startup_env :=
  {| argc := 2; config_init_ret := 0; config_debug := false;
     config_turns := value; oscillator_created := true;
     pps_device_defined := true; open_ret := 3; od_created := true;
     od_dac_min := 0; od_dac_max := 65535;
     config_opposite_phase_error := opposite; gnss_init_ret := 0 |}.

(** ** Leaving [main] through [return]: lines 91-94 *)

(** [od], [fd] and [oscillator] carry a [cleanup] attribute: when [main]
    returns (line 305) their handlers run, the last declared first.  They do
    not run when the process leaves through [exit], which is what [error]
    and [signal_handler] call. *)
Inductive cleanup_call : Type :=
| cleanup_oscillator_factory_destroy
| cleanup_fd_cleanup
| cleanup_od_destroy.

(** The handlers that run once the loop has left the process in state [o].
    Status 0 is the status of [return EXIT_SUCCESS]; every [exit] inside the
    loop has status [EXIT_FAILURE] ([body_exit_status] below). *)
Definition handlers_on_return (o : outcome) : list cleanup_call :=
  match o with
  | Exited status =>
      if status =? EXIT_SUCCESS
      then [cleanup_oscillator_factory_destroy; cleanup_fd_cleanup;
            cleanup_od_destroy]
      else []
  | Running _ => []
  end.

(** * Properties *)

(** ** Machine arithmetic *)

Lemma sint32_small (z : Z) : in_int32 z -> sint32 z = z.
Proof.
  unfold in_int32, INT32_MIN, INT32_MAX, sint32. intros Hz.
  rewrite Z.mod_small by lia. lia.
Qed.

Lemma sint32_range (z : Z) : in_int32 (sint32 z).
Proof.
  unfold in_int32, INT32_MIN, INT32_MAX, sint32.
  pose proof (Z.mod_pos_bound (z + 2147483648) 4294967296). lia.
Qed.

Lemma uint32_range (z : Z) : in_uint32 (uint32 z).
Proof.
  unfold in_uint32, UINT_MAX, uint32.
  pose proof (Z.mod_pos_bound z 4294967296). lia.
Qed.

Lemma mul32_sign (p s : Z) :
  in_int32 s -> p = 1 \/ p = -1 -> ~ (p = -1 /\ s = INT32_MIN) ->
  mul32 p s = p * s.
Proof.
  unfold mul32. intros Hs Hp Hrep. apply sint32_small.
  unfold in_int32, INT32_MIN, INT32_MAX in *. lia.
Qed.

Lemma neg32_exact (v : Z) : in_int32 v -> v <> INT32_MIN -> neg32 v = - v.
Proof.
  unfold neg32. intros Hv Hmin. apply sint32_small.
  unfold in_int32, INT32_MIN, INT32_MAX in *. lia.
Qed.

(** ** The split of the phase error *)

(** C1, as amended: for every 32-bit sample [s] and polarity [p] in {+1, -1}
    other than the pair [p = -1], [s = -2^31], the seconds and nanoseconds of
    the input record recombine to [p * s], they are the truncating quotient
    and remainder of [p * s] by [NS_IN_SECOND], and when the seconds are 0
    the nanoseconds have the sign of [p * s]; a sample of -1,500,000,000 ns
    with polarity -1 gives 1 s and 500,000,000 ns. *)
Theorem split_recombines (p s : Z) (pps_valid : bool) (ctrl : oscillator_ctrl)
    (temp q : Z)
    (Hs : in_int32 s) (Hp : p = 1 \/ p = -1)
    (Hrep : ~ (p = -1 /\ s = INT32_MIN)) :
  let t := phase_error (build_input p s pps_valid ctrl temp q) in
  let t' :=
    phase_error (build_input (-1) (-1500000000) pps_valid ctrl temp q) in
  tv_sec t * NS_IN_SECOND + tv_nsec t = p * s /\
  tv_sec t = Z.quot (p * s) NS_IN_SECOND /\
  tv_nsec t = Z.rem (p * s) NS_IN_SECOND /\
  (tv_sec t = 0 -> Z.sgn (tv_nsec t) = Z.sgn (p * s)) /\
  tv_sec t' = 1 /\ tv_nsec t' = 500000000.
Proof.
  cbn [build_input phase_error tv_sec tv_nsec].
  rewrite (mul32_sign p s Hs Hp Hrep).
  pose proof (Z.quot_rem' (p * s) NS_IN_SECOND) as Hqr.
  repeat split; try reflexivity.
  - lia.
  - intros H0. rewrite H0 in Hqr. f_equal. lia.
Qed.

Lemma split_recombines_witness :
  let t := phase_error
    (build_input (configured_sign true) (-1500000000) true
       (ctrl_values quiet_cycle) 0 0) in
  tv_sec t = 1 /\ tv_nsec t = 500000000 /\
  tv_sec t * NS_IN_SECOND + tv_nsec t = -1 * -1500000000.
Proof.
  pose proof (split_recombines (configured_sign true) (-1500000000) true
    (ctrl_values quiet_cycle) 0 0) as H.
  cbv zeta in H.
  destruct H as (Hsum & _ & _ & _ & Hsec & Hnsec).
  - unfold in_int32, INT32_MIN, INT32_MAX. lia.
  - right. reflexivity.
  - unfold INT32_MIN. intros [_ H]. discriminate H.
  - cbv zeta. repeat split; assumption.
Defined.

(** C1 as stated fails where [sign * phase_error] leaves the range of [int]:
    polarity -1 and the sample -2^31 give -2 s and -147,483,648 ns, which
    recombine to -2^31 and not to 2^31. *)
Lemma split_wraps_at_int32_min :
  let t := phase_error
    (build_input (-1) INT32_MIN true (ctrl_values quiet_cycle) 0 0) in
  in_int32 INT32_MIN /\
  tv_sec t = -2 /\ tv_nsec t = -147483648 /\
  tv_sec t * NS_IN_SECOND + tv_nsec t <> -1 * INT32_MIN.
Proof.
  cbv zeta. repeat split; try reflexivity; discriminate.
Qed.

(** ** Sequencing *)


(** ** The stages of the body *)

Lemma deliver_signals_spec (n : nat) (st : run_state) :
  deliver_signals n st =
  match n with
  | O => ([], Next st)
  | 1%nat => if loop st then ([], Next (set_loop st false))
             else ([], Exit EXIT_FAILURE)
  | _ => ([], Exit EXIT_FAILURE)
  end.
Proof. destruct n as [|[|n]], st as [t [|] i]; reflexivity. Qed.

Ltac split_on c :=
  match goal with
  | |- context [c] => destruct c eqn:?
  end.

Ltac reduce_stage :=
  cbn beta iota zeta delta [fst snd app set_loop set_ignore_next_irq
    set_turns turns loop ignore_next_irq orb andb negb bind ret do_call
    continue error exit Nat.leb].

Ltac open_acquire e st :=
  unfold acquire, wait_for_event, read_sample, honor_ignore_next_irq,
    data_ready, transient_failure;
  rewrite (deliver_signals_spec (signals e) st).

Ltac acquire_branch e st :=
  first
    [ split_on (loop st)
    | split_on (select_ret e =? 0)
    | split_on (select_ret e =? -1)
    | split_on (select_errno e =? EINTR)
    | split_on (read_ret e =? -1)
    | split_on (read_errno e =? EAGAIN)
    | split_on (read_errno e =? EINTR)
    | split_on (ignore_next_irq st) ].

Ltac walk_acquire e st :=
  open_acquire e st; destruct (signals e) as [|[|?]] eqn:?; reduce_stage;
  repeat (acquire_branch e st; reduce_stage).

Ltac absurd_tests :=
  match goal with
  | H1 : (?x =? ?a) = true, H2 : (?x =? ?b) = true |- _ =>
      apply Z.eqb_eq in H1; apply Z.eqb_eq in H2; exfalso;
      unfold EINTR, EAGAIN in *; lia
  end.

Ltac wait_or_read_only :=
  repeat (apply Forall_cons; [unfold wait_or_read; auto|]); apply Forall_nil.

Lemma acquire_calls (e : cycle_env) (st : run_state) :
  Forall wait_or_read (fst (acquire e st)).
Proof. walk_acquire e st; wait_or_read_only. Qed.

(** What [acquire] hands on, by the way control leaves it. *)
Lemma acquire_spec (e : cycle_env) (st : run_state) :
  match snd (acquire e st) with
  | Exit s => s = EXIT_FAILURE
  | Continue st' =>
      transient_failure e = true /\ st' = after_signals e st \/
      data_ready e = true /\ ignore_next_irq st = true /\
        st' = set_ignore_next_irq (after_signals e st) false /\
        fst (acquire e st) = [sys_select LOOP_TIMEOUT; sys_read]
  | Next (st', sample) =>
      data_ready e = true /\ ignore_next_irq st = false /\
      st' = after_signals e st /\ sample = read_phase_error e /\
      fst (acquire e st) = [sys_select LOOP_TIMEOUT; sys_read]
  end.
Proof.
  unfold after_signals.
  walk_acquire e st; try reflexivity; repeat split; auto.
Qed.

Lemma after_signals_frame (e : cycle_env) (st : run_state) :
  turns (after_signals e st) = turns st /\
  ignore_next_irq (after_signals e st) = ignore_next_irq st /\
  loop (after_signals e st) = (loop st && (signals e =? 0)%nat).
Proof.
  unfold after_signals.
  destruct (signals e), st as [t [|] i]; repeat split.
Qed.

Lemma acquire_timeout (e : cycle_env) (st : run_state) :
  select_ret e = 0 ->
  acquire e st = ([sys_select LOOP_TIMEOUT], Exit EXIT_FAILURE).
Proof.
  intros H. open_acquire e st. rewrite H.
  destruct (signals e) as [|[|?]], (loop st); reflexivity.
Qed.

Lemma acquire_transient (e : cycle_env) (st : run_state) :
  transient_failure e = true -> (signals e <= 1)%nat -> loop st = true ->
  snd (acquire e st) = Continue (after_signals e st).
Proof.
  unfold after_signals. intros Htr Hsig Hloop. revert Htr.
  open_acquire e st. rewrite Hloop.
  destruct (signals e) as [|[|?]]; [| |lia]; reduce_stage.
  all: repeat (acquire_branch e st; reduce_stage).
  all: try discriminate; try absurd_tests; reflexivity.
Qed.

Lemma acquire_data_ready (e : cycle_env) (st : run_state) :
  data_ready e = true -> loop st = true ->
  acquire e st =
  ([sys_select LOOP_TIMEOUT; sys_read],
   if ignore_next_irq st
   then Continue (set_ignore_next_irq (after_signals e st) false)
   else Next (after_signals e st, read_phase_error e)).
Proof.
  unfold after_signals. intros Hready Hloop. revert Hready.
  open_acquire e st. rewrite Hloop.
  destruct (signals e) as [|[|?]]; reduce_stage.
  all: repeat (acquire_branch e st; reduce_stage).
  all: try discriminate; reflexivity.
Qed.

Lemma collect_spec (sign : Z) (e : cycle_env) (sample : Z) :
  collect sign e sample =
  if negb (get_temp_ret e =? - ENOSYS) && (get_temp_ret e <? 0)
  then ([call_oscillator_get_temp], Exit EXIT_FAILURE)
  else
    let temp :=
      if get_temp_ret e =? - ENOSYS then 0 else get_temp_value e in
    match gnss_ret e with
    | GNSS_ERROR =>
        ([call_oscillator_get_temp; call_gnss_get_data], Exit EXIT_FAILURE)
    | GNSS_VALID =>
        ([call_oscillator_get_temp; call_gnss_get_data;
          call_oscillator_get_ctrl],
         Next (build_input sign sample true (ctrl_values e) temp
                 (gnss_qErr e)))
    | _ =>
        ([call_oscillator_get_temp; call_gnss_get_data;
          call_oscillator_get_ctrl],
         Next (build_input sign sample false (ctrl_values e) temp
                 (gnss_qErr e)))
    end.
Proof.
  unfold collect, get_temperature, poll_gnss, get_ctrl.
  destruct (get_temp_ret e =? - ENOSYS), (get_temp_ret e <? 0),
    (gnss_ret e); reflexivity.
Qed.

Lemma dispatch_spec (sign : Z) (e : cycle_env) (st : run_state)
    (output : od_output) :
  match snd (dispatch sign e st output) with
  | Exit s => s = EXIT_FAILURE
  | Continue _ => False
  | Next st' =>
      turns st' = turns st /\ loop st' = loop st /\
      ignore_next_irq st' =
        match action output with
        | PHASE_JUMP => true
        | _ => ignore_next_irq st
        end
  end.
Proof.
  unfold dispatch, apply_phase_offset.
  destruct (action output); reduce_stage.
  1-3: destruct (apply_output_ret e <? 0); cbn; auto.
  - destruct (write_ret e =? -1); reduce_stage;
      [destruct (- write_errno e <? 0) | destruct (write_ret e <? 0)];
      cbn; auto.
  - destruct (calib_params e) as [p|]; reduce_stage; [|reflexivity].
    destruct (calib_results e) as [r|]; cbn; auto.
Qed.

(** The body, by the way control leaves each of its stages. *)
Lemma body_stages (sign : Z) (e : cycle_env) (st : run_state) :
  body sign e st =
  match acquire e st with
  | (l0, Next (st1, sample)) =>
      match collect sign e sample with
      | (l1, Next input) =>
          if od_process_ret e <? 0
          then (l0 ++ l1 ++ [call_od_process input], Exit EXIT_FAILURE)
          else
            match dispatch sign e st1 (od_process_output e) with
            | (l2, Next st2) =>
                (l0 ++ l1 ++ call_od_process input :: l2 ++ [sys_sleep 5],
                 Next st2)
            | (l2, Continue st2) =>
                (l0 ++ l1 ++ call_od_process input :: l2, Continue st2)
            | (l2, Exit s) =>
                (l0 ++ l1 ++ call_od_process input :: l2, Exit s)
            end
      | (l1, Continue st') => (l0 ++ l1, Continue st')
      | (l1, Exit s) => (l0 ++ l1, Exit s)
      end
  | (l0, Continue st') => (l0, Continue st')
  | (l0, Exit s) => (l0, Exit s)
  end.
Proof.
  unfold body, process.
  destruct (acquire e st) as [l0 [[st1 sample] | st' | s]]; cbn [bind];
    try reflexivity.
  cbn [fst snd].
  destruct (collect sign e sample) as [l1 [input | st' | s]]; cbn [bind];
    try reflexivity.
  unfold do_call, error, ret.
  destruct (od_process_ret e <? 0); cbn [bind app]; [reflexivity|].
  destruct (dispatch sign e st1 (od_process_output e))
    as [l2 [st2 | st2 | s]]; cbn [bind app]; reflexivity.
Qed.

Lemma body_exit_status (sign : Z) (e : cycle_env) (st : run_state) (s : Z) :
  snd (body sign e st) = Exit s -> s = EXIT_FAILURE.
Proof.
  rewrite body_stages.
  pose proof (acquire_spec e st) as Ha.
  destruct (acquire e st) as [l0 [[st1 sample] | st' | x]]; cbn [snd] in *;
    try discriminate; [|intros [= <-]; exact Ha].
  rewrite collect_spec.
  destruct (negb _ && _); [intros [= <-]; reflexivity|]. cbv zeta.
  pose proof (dispatch_spec sign e st1 (od_process_output e)) as Hd.
  destruct (gnss_ret e); try (intros [= <-]; reflexivity).
  all: destruct (od_process_ret e <? 0); [intros [= <-]; reflexivity|].
  all: destruct (dispatch sign e st1 (od_process_output e))
         as [l2 [st2 | st2 | x]]; cbn [snd] in *; try discriminate.
  all: intros [= <-]; exact Hd.
Qed.

(** The body never touches [turns]; without a signal it leaves [loop] alone. *)
Lemma body_frame (sign : Z) (e : cycle_env) (st st' : run_state) :
  resumes (snd (body sign e st)) (fun a => a) st' ->
  turns st' = turns st /\ loop st' = loop (after_signals e st).
Proof.
  rewrite body_stages.
  pose proof (acquire_spec e st) as Ha.
  destruct (after_signals_frame e st) as (Ht & _ & _).
  destruct (acquire e st) as [l0 [[st1 sample] | st1 | x]]; cbn [snd] in *;
    [| intros <-; destruct Ha as [[_ ->] | (_ & _ & -> & _)]; auto
     | contradiction].
  destruct Ha as (_ & _ & Hst1 & _).
  rewrite collect_spec.
  destruct (negb _ && _); [contradiction|]. cbv zeta.
  pose proof (dispatch_spec sign e st1 (od_process_output e)) as Hd.
  destruct (gnss_ret e); try contradiction.
  all: destruct (od_process_ret e <? 0); [contradiction|].
  all: destruct (dispatch sign e st1 (od_process_output e))
         as [l2 [st2 | st2 | x]]; cbn [snd resumes] in *; try contradiction.
  all: intros <-; destruct Hd as (Ht2 & Hl2 & _); subst st1; split;
       congruence.
Qed.

(** ** Counting down *)

Lemma iteration_quiet (sign : Z) (st : run_state) (e : cycle_env) :
  signals e = 0%nat -> loop st = true ->
  snd (iteration sign st e) = Exited EXIT_FAILURE \/
  exists st',
    turns st' = uint32 (turns st - 1) /\ loop st' = true /\
    snd (iteration sign st e) =
      if turns st' =? 1 then Exited EXIT_SUCCESS else Running st'.
Proof.
  intros Hsig Hloop. unfold iteration.
  pose proof (body_exit_status sign e (decrement_turns st)) as Hexit.
  pose proof (body_frame sign e (decrement_turns st)) as Hframe.
  destruct (body sign e (decrement_turns st)) as [l [st' | st' | s]];
    cbn [snd] in *.
  3: left; rewrite (Hexit s eq_refl); reflexivity.
  all: right; exists st'; destruct (Hframe st' eq_refl) as [Ht Hl].
  all: unfold after_signals in Hl; rewrite Hsig in Hl.
  all: cbn in Ht, Hl; rewrite Hloop in Hl.
  all: repeat split; try assumption.
  all: unfold after_body, loop_condition; rewrite Hl; cbn [andb].
  all: destruct (turns st' =? 1); reflexivity.
Qed.

Lemma run_countdown (sign : Z) (envs : list cycle_env) :
  forall st : run_state,
    loop st = true -> in_uint32 (turns st) ->
    Forall (fun e => signals e = 0%nat) envs ->
    final (run sign st envs) <> Exited EXIT_FAILURE ->
    (Z.of_nat (length envs) < turns_left (turns st) ->
       iterations (run sign st envs) = length envs /\
       exists st', final (run sign st envs) = Running st' /\
         loop st' = true /\
         turns st' = uint32 (turns st - Z.of_nat (length envs))) /\
    (turns_left (turns st) <= Z.of_nat (length envs) ->
       final (run sign st envs) = Exited EXIT_SUCCESS /\
       Z.of_nat (iterations (run sign st envs)) = turns_left (turns st)).
Proof.
  induction envs as [|e envs IH]; intros st Hloop Ht Hsig Hfail.
  - cbn [run length final iterations]. split.
    + intros _. split; [reflexivity|]. exists st. repeat split; auto.
      cbn. rewrite Z.sub_0_r. unfold uint32, in_uint32, UINT_MAX in *.
      symmetry. apply Z.mod_small. lia.
    + unfold turns_left. pose proof (uint32_range (turns st - 2)) as H.
      unfold in_uint32 in H. cbn. lia.
  - inversion Hsig as [|? ? He Hrest]; subst.
    destruct (iteration_quiet sign st e He Hloop) as [Hx | (st' & Ht' & Hl' & Hx)];
      cbn [run] in *; destruct (iteration sign st e) as [l o]; cbn [snd] in Hx;
      subst o.
    + exfalso. apply Hfail. reflexivity.
    + assert (Hrel : turns st' = 1 /\ turns_left (turns st) = 1 \/
                     turns st' <> 1 /\
                     turns_left (turns st) = turns_left (turns st') + 1).
      { rewrite Ht'. unfold turns_left, uint32, in_uint32, UINT_MAX in *.
        clear - Ht. 
        pose proof (Z.mod_pos_bound (turns st - 1) 4294967296).
        pose proof (Z.mod_pos_bound (turns st - 2) 4294967296).
        pose proof (Z.mod_pos_bound ((turns st - 1) mod 4294967296 - 2) 4294967296).
        Z.div_mod_to_equations. lia. }
      destruct (Z.eqb_spec (turns st') 1) as [H1 | H1].
      * destruct Hrel as [[_ Hk] | [Hne _]]; [|contradiction].
        cbn [final iterations length]. rewrite Hk. split; [lia|].
        intros _. split; reflexivity.
      * destruct Hrel as [[He1 _] | [_ Hk]]; [contradiction|].
        cbn [final iterations length] in *.
        assert (Ht'' : in_uint32 (turns st')) by (rewrite Ht'; apply uint32_range).
        destruct (IH st' Hl' Ht'' Hrest Hfail) as [IHlt IHge].
        rewrite Hk. split; intros Hlen.
        -- destruct IHlt as [Hit (st'' & Hf & Hl'' & Ht3)]; [lia|].
           split; [congruence|]. exists st''. repeat split; auto.
           rewrite Ht3, Ht'. unfold uint32.
           rewrite Zminus_mod_idemp_l. f_equal. lia.
        -- destruct IHge as [Hf Hit]; [lia|]. split; [assumption|]. lia.
Qed.

(** ** The run-length counter *)

Lemma iteration_quiet_cycle (sign : Z) (st : run_state) :
  snd (iteration sign st quiet_cycle) <> Exited EXIT_FAILURE.
Proof.
  destruct st as [t l [|]]; unfold iteration; cbn;
    unfold after_body, loop_condition; cbn;
    destruct (l && negb (uint32 (t - 1) =? 1)); cbn; discriminate.
Qed.

Lemma run_quiet_cycles (sign : Z) (n : nat) :
  forall st : run_state,
    final (run sign st (repeat quiet_cycle n)) <> Exited EXIT_FAILURE.
Proof.
  induction n as [|n IH]; intros st; cbn [repeat run].
  - discriminate.
  - pose proof (iteration_quiet_cycle sign st) as H.
    destruct (iteration sign st quiet_cycle) as [l [st' | s]]; cbn [final snd] in *.
    + apply IH.
    + exact H.
Qed.

(** C3, as amended: for every configured turns value [n] with
    [2 <= n <= 2^32 - 1], when no signal is delivered and no fatal error
    occurs, the loop body is entered exactly [n - 1] times and the process
    then exits with status 0. *)
Theorem turns_bound_iterations (sign n : Z) (envs : list cycle_env)
    (Hn : 2 <= n <= UINT_MAX)
    (Hsig : Forall (fun e => signals e = 0%nat) envs)
    (Hfatal : final (run sign (initial_state (Some n)) envs)
                <> Exited EXIT_FAILURE)
    (Hlen : n - 1 <= Z.of_nat (length envs)) :
  final (run sign (initial_state (Some n)) envs) = Exited EXIT_SUCCESS /\
  Z.of_nat (iterations (run sign (initial_state (Some n)) envs)) = n - 1.
Proof.
  assert (Hturns : turns (initial_state (Some n)) = n).
  { cbn. unfold uint32, UINT_MAX in *. apply Z.mod_small. lia. }
  assert (Hleft : turns_left n = n - 1).
  { unfold turns_left, uint32, UINT_MAX in *. rewrite Z.mod_small by lia. lia. }
  destruct (run_countdown sign envs (initial_state (Some n))) as [_ Hge];
    try assumption.
  - reflexivity.
  - rewrite Hturns. unfold in_uint32. lia.
  - rewrite Hturns, Hleft in Hge. apply Hge. assumption.
Qed.

Lemma turns_bound_iterations_witness :
  let r := run 1 (initial_state (Some 3))
             [quiet_cycle; quiet_cycle; quiet_cycle] in
  final r = Exited EXIT_SUCCESS /\ Z.of_nat (iterations r) = 3 - 1.
Proof.
  cbv zeta.
  apply (turns_bound_iterations 1 3 [quiet_cycle; quiet_cycle; quiet_cycle]).
  - unfold UINT_MAX. lia.
  - repeat constructor.
  - vm_compute. discriminate.
  - cbn. lia.
Defined.

(** C3 as stated fails for a configured value of 1: the body runs before the
    counter is first tested, the counter is then 0 and the loop goes on. *)
Lemma single_turn_keeps_running :
  let r := run 1 (initial_state (Some 1)) [quiet_cycle] in
  Forall (fun e => signals e = 0%nat) [quiet_cycle] /\
  1 - 1 <= Z.of_nat (length [quiet_cycle]) /\
  iterations r = 1%nat /\
  Z.of_nat (iterations r) <> 1 - 1 /\
  final r = Running {| turns := 0; loop := true; ignore_next_irq := false |} /\
  turns_left (turns (initial_state (Some 1))) = 4294967296.
Proof.
  cbv zeta. repeat split; try reflexivity; try discriminate.
  repeat constructor.
Qed.

(** C4, as amended: with [turns] unconfigured or configured as 0, during the
    first [2^32 - 2] iterations the loop is left only through a fatal error
    or after a termination signal was delivered. *)
Theorem unbounded_until_wrap (sign : Z) (value : option Z)
    (envs : list cycle_env) (s : Z)
    (Hvalue : value = None \/ value = Some 0)
    (Hlen : Z.of_nat (length envs) < UINT_MAX)
    (Hexit : final (run sign (initial_state value) envs) = Exited s) :
  s = EXIT_FAILURE \/ Exists (fun e => signals e <> 0%nat) envs.
Proof.
  destruct (Z.eq_dec s EXIT_FAILURE) as [Hs | Hs]; [left; assumption | right].
  destruct (Forall_Exists_dec (fun e => signals e = 0%nat)
              (fun e => Nat.eq_dec (signals e) 0) envs) as [Hall | Hex];
    [exfalso | exact Hex].
  assert (Hturns : turns (initial_state value) = 0)
    by (destruct Hvalue; subst value; reflexivity).
  destruct (run_countdown sign envs (initial_state value)) as [Hlt _];
    try assumption.
  - reflexivity.
  - rewrite Hturns. unfold in_uint32, UINT_MAX. lia.
  - rewrite Hexit. congruence.
  - rewrite Hturns in Hlt. destruct Hlt as [_ (st' & Hrun & _)].
    + exact Hlen.
    + congruence.
Qed.

Lemma unbounded_until_wrap_witness :
  let stop :=
    {| signals := 1;
       select_ret := -1; select_errno := EINTR;
       read_ret := 4; read_errno := 0; read_phase_error := 0;
       get_temp_ret := 0; get_temp_value := 0;
       gnss_ret := GNSS_VALID; gnss_qErr := 0;
       ctrl_values := ctrl_values quiet_cycle;
       od_process_ret := 0; od_process_output := idle_output;
       write_ret := 4; write_errno := 0;
       calib_params := None; calib_results := None;
       apply_output_ret := 0 |} in
  final (run 1 (initial_state None) [quiet_cycle; stop])
    = Exited EXIT_SUCCESS /\
  (EXIT_SUCCESS = EXIT_FAILURE \/
   Exists (fun e => signals e <> 0%nat) [quiet_cycle; stop]).
Proof.
  cbv zeta. split; [reflexivity|].
  eapply (unbounded_until_wrap 1 None).
  - left. reflexivity.
  - unfold UINT_MAX. cbn. lia.
  - reflexivity.
Defined.

(** C4 as stated fails: the counter is decremented on every iteration even
    when it started at 0, so it wraps to [2^32 - 1] and reaches 1 after
    [2^32 - 1] iterations; the loop then ends on the counter, with no signal
    and no error. *)
Lemma turn_counter_wraps_to_exhaustion :
  let envs := repeat quiet_cycle (Z.to_nat UINT_MAX) in
  let r := run 1 (initial_state None) envs in
  Forall (fun e => signals e = 0%nat) envs /\
  final r = Exited EXIT_SUCCESS /\
  Z.of_nat (iterations r) = UINT_MAX.
Proof.
  intros envs r.
  assert (Hlen : Z.of_nat (length envs) = UINT_MAX).
  { subst envs. rewrite repeat_length. apply Z2Nat.id. discriminate. }
  assert (Hall : Forall (fun e => signals e = 0%nat) envs).
  { apply Forall_forall. intros e He. apply repeat_spec in He. subst e.
    reflexivity. }
  split; [exact Hall|].
  destruct (run_countdown 1 envs (initial_state None)) as [_ Hge].
  - reflexivity.
  - cbn [initial_state turns configured_turns]. unfold in_uint32, UINT_MAX. lia.
  - exact Hall.
  - apply run_quiet_cycles.
  - apply Hge. rewrite Hlen. reflexivity.
Qed.

(** ** Transient failures of the wait and of the read *)

(** C5, as amended: when the wait fails with [EINTR], or the read fails with
    [EAGAIN] or [EINTR], the process does not exit with an error and the rest
    of the body is skipped through [continue] with [turns] and
    [ignore_next_irq] untouched; the loop test is then evaluated, so the
    process exits with status 0 if a termination signal arrived or the
    counter stands at 1, and otherwise the next iteration decrements the
    counter once more before its wait. *)
Theorem transient_failure_retries (sign : Z) (st : run_state) (e : cycle_env)
    (Htransient : transient_failure e = true)
    (Hsig : (signals e <= 1)%nat)
    (Hloop : loop st = true) :
  let at_wait := decrement_turns st in
  let stop := negb (signals e =? 0)%nat in
  (exists st',
     snd (body sign e at_wait) = Continue st' /\
     turns st' = turns at_wait /\
     ignore_next_irq st' = ignore_next_irq at_wait /\
     loop st' = negb stop) /\
  Forall wait_or_read (fst (body sign e at_wait)) /\
  snd (iteration sign st e) =
    (if negb stop && negb (turns at_wait =? 1) then Running at_wait
     else Exited EXIT_SUCCESS) /\
  (forall st', snd (iteration sign st e) = Running st' ->
     ignore_next_irq (decrement_turns st') = ignore_next_irq st /\
     turns (decrement_turns st') = uint32 (turns at_wait - 1) /\
     turns (decrement_turns st') <> turns at_wait).
Proof.
  intros at_wait stop.
  assert (Hloop' : loop at_wait = true) by exact Hloop.
  pose proof (acquire_transient e at_wait Htransient Hsig Hloop') as Ha.
  pose proof (acquire_calls e at_wait) as Hcalls.
  destruct (after_signals_frame e at_wait) as (Ht & Hi & Hl).
  rewrite Hloop' in Hl. cbn [andb] in Hl.
  assert (Hbody : body sign e at_wait
                  = (fst (acquire e at_wait),
                     Continue (after_signals e at_wait))).
  { rewrite body_stages. destruct (acquire e at_wait) as [l0 r].
    cbn [snd fst] in *. subst r. reflexivity. }
  assert (Hiter : snd (iteration sign st e) =
            if negb stop && negb (turns at_wait =? 1) then Running at_wait
            else Exited EXIT_SUCCESS).
  { unfold iteration. fold at_wait. rewrite Hbody.
    unfold after_body, loop_condition. rewrite Hl, Ht. subst stop.
    rewrite negb_involutive. unfold after_signals.
    destruct (signals e); cbn [Nat.eqb andb]; [|reflexivity].
    destruct (negb (turns at_wait =? 1)); reflexivity. }
  split; [|split; [|split]].
  - exists (after_signals e at_wait). rewrite Hbody. subst stop.
    rewrite negb_involutive. repeat split; assumption.
  - rewrite Hbody. exact Hcalls.
  - exact Hiter.
  - intros st' Hrun. rewrite Hiter in Hrun.
    destruct (negb stop && negb (turns at_wait =? 1)); [|discriminate].
    injection Hrun as <-. repeat split.
    subst at_wait. cbn [decrement_turns set_turns turns]. unfold uint32.
    pose proof (Z.mod_pos_bound (turns st - 1) 4294967296).
    Z.div_mod_to_equations. lia.
Qed.

Lemma transient_failure_retries_witness :
  let st := {| turns := 5; loop := true; ignore_next_irq := true |} in
  snd (iteration 1 st interrupted_wait) = Running (decrement_turns st) /\
  ignore_next_irq (decrement_turns (decrement_turns st)) = true /\
  turns (decrement_turns (decrement_turns st)) = 3.
Proof.
  cbv zeta.
  destruct (transient_failure_retries 1
              {| turns := 5; loop := true; ignore_next_irq := true |}
              interrupted_wait) as (_ & _ & Hit & Hnext).
  - reflexivity.
  - cbn. lia.
  - reflexivity.
  - cbv zeta in Hit, Hnext. split; [exact Hit|].
    destruct (Hnext _ Hit) as (Hi & Ht & _). split; [exact Hi | exact Ht].
Defined.

(** C5 as stated fails: the [continue] leads to the loop test and to the
    [turns--] of the next iteration, so the counter at the next wait is one
    less than at the failed one (3 against 4 below), and when the counter
    stands at 1 the failed attempt ends the process. *)
Lemma retry_consumes_a_turn :
  let st := {| turns := 5; loop := true; ignore_next_irq := false |} in
  let last := {| turns := 2; loop := true; ignore_next_irq := false |} in
  transient_failure interrupted_wait = true /\
  snd (iteration 1 st interrupted_wait) = Running (decrement_turns st) /\
  turns (decrement_turns st) = 4 /\
  turns (decrement_turns (decrement_turns st)) = 3 /\
  turns (decrement_turns (decrement_turns st)) <> turns (decrement_turns st) /\
  iteration 1 last interrupted_wait =
    ([sys_select LOOP_TIMEOUT; call_od_destroy], Exited EXIT_SUCCESS).
Proof.
  cbv zeta. repeat split; try reflexivity. discriminate.
Qed.

(** ** The timeout of the wait *)

(** C7: when [select] reports a timeout, whatever the state of the loop, the
    iteration makes no further call and the process exits with
    [EXIT_FAILURE], which is not 0; nothing is retried. *)
Theorem wait_timeout_is_fatal (sign : Z) (st : run_state) (e : cycle_env)
    (envs : list cycle_env)
    (Htimeout : select_ret e = 0) :
  iteration sign st e = ([sys_select LOOP_TIMEOUT], Exited EXIT_FAILURE) /\
  run sign st (e :: envs) =
    {| trace := [sys_select LOOP_TIMEOUT]; iterations := 1;
       final := Exited EXIT_FAILURE |} /\
  transient_failure e = false /\
  EXIT_FAILURE <> 0.
Proof.
  assert (Hit : iteration sign st e
                = ([sys_select LOOP_TIMEOUT], Exited EXIT_FAILURE)).
  { unfold iteration. rewrite body_stages.
    rewrite (acquire_timeout e _ Htimeout). reflexivity. }
  repeat split.
  - exact Hit.
  - cbn [run]. rewrite Hit. reflexivity.
  - unfold transient_failure. rewrite Htimeout. reflexivity.
  - discriminate.
Qed.

Lemma wait_timeout_is_fatal_witness :
  let timeout :=
    {| signals := 0;
       select_ret := 0; select_errno := 0;
       read_ret := 4; read_errno := 0; read_phase_error := 0;
       get_temp_ret := 0; get_temp_value := 0;
       gnss_ret := GNSS_VALID; gnss_qErr := 0;
       ctrl_values := ctrl_values quiet_cycle;
       od_process_ret := 0; od_process_output := idle_output;
       write_ret := 4; write_errno := 0;
       calib_params := None; calib_results := None;
       apply_output_ret := 0 |} in
  final (run 1 (initial_state None) [quiet_cycle; timeout; quiet_cycle])
    = Exited EXIT_FAILURE /\
  iteration 1 {| turns := 7; loop := true; ignore_next_irq := true |} timeout
    = ([sys_select LOOP_TIMEOUT], Exited EXIT_FAILURE).
Proof.
  cbv zeta. split; [reflexivity|].
  eapply (wait_timeout_is_fatal 1 _ _ []). reflexivity.
Defined.

(** ** Reading calls off a trace *)

Ltac find_in_trace :=
  cbn [In app]; repeat (first [left; reflexivity | right]).

Ltac scan_trace H :=
  cbn [In app fst snd] in H;
  repeat (destruct H as [H | H]); try discriminate H; try contradiction.

Lemma wait_or_read_calls (l : list call) (c : call) :
  Forall wait_or_read l -> In c l ->
  c = sys_select LOOP_TIMEOUT \/ c = sys_read.
Proof. intros Hall Hin. rewrite Forall_forall in Hall. exact (Hall c Hin). Qed.

Lemma dispatch_calls (sign : Z) (e : cycle_env) (st : run_state)
    (output : od_output) (c : call) :
  In c (fst (dispatch sign e st output)) -> dispatch_call c.
Proof.
  unfold dispatch, apply_phase_offset.
  destruct (action output); reduce_stage.
  1-3: destruct (apply_output_ret e <? 0); intros H; scan_trace H;
       subst c; exact I.
  - destruct (write_ret e =? -1); reduce_stage;
      [destruct (- write_errno e <? 0) | destruct (write_ret e <? 0)];
      intros H; scan_trace H; subst c; exact I.
  - destruct (calib_params e) as [p|]; reduce_stage;
      [destruct (calib_results e) as [r|]|];
      intros H; scan_trace H; subst c; exact I.
Qed.

Lemma iteration_calls (sign : Z) (st : run_state) (e : cycle_env) (c : call) :
  c <> call_od_destroy ->
  (In c (fst (iteration sign st e)) <->
   In c (fst (body sign e (decrement_turns st)))).
Proof.
  intros Hc. unfold iteration, after_body.
  destruct (body sign e (decrement_turns st)) as [l [st' | st' | s]];
    try destruct (loop_condition st'); cbn [fst]; try tauto.
  all: rewrite in_app_iff; cbn [In]; split; [|tauto].
  all: intros [H | [H | []]]; [exact H | congruence].
Qed.

Lemma iteration_outcome (sign : Z) (st : run_state) (e : cycle_env) :
  snd (iteration sign st e) =
  match snd (body sign e (decrement_turns st)) with
  | Next st' | Continue st' =>
      if loop_condition st' then Running st' else Exited EXIT_SUCCESS
  | Exit s => Exited s
  end.
Proof.
  unfold iteration, after_body.
  destruct (body sign e (decrement_turns st)) as [l [st' | st' | s]];
    cbn [snd]; try destruct (loop_condition st'); reflexivity.
Qed.

(** A cycle that calls [od_process] has gone through every earlier stage,
    and goes on as the answer of the library says. *)
Lemma process_reached (sign : Z) (e : cycle_env) (st : run_state)
    (input : od_input) :
  In (call_od_process input) (fst (body sign e st)) ->
  input = cycle_input sign e /\
  data_ready e = true /\ ignore_next_irq st = false /\
  gnss_ret e <> GNSS_ERROR /\
  body sign e st =
    if od_process_ret e <? 0
    then (calls_up_to_process input, Exit EXIT_FAILURE)
    else
      match dispatch sign e (after_signals e st) (od_process_output e) with
      | (l, Next st') =>
          (calls_up_to_process input ++ l ++ [sys_sleep 5], Next st')
      | (l, Continue st') => (calls_up_to_process input ++ l, Continue st')
      | (l, Exit s) => (calls_up_to_process input ++ l, Exit s)
      end.
Proof.
  rewrite body_stages.
  pose proof (acquire_spec e st) as Ha.
  pose proof (acquire_calls e st) as Hc.
  destruct (acquire e st) as [l0 [[st1 sample] | st' | s]];
    cbn [fst snd] in *.
  2, 3: intros H; destruct (wait_or_read_calls _ _ Hc H); discriminate.
  destruct Ha as (Hready & Hign & -> & -> & ->). clear Hc.
  rewrite collect_spec. unfold cycle_input.
  destruct (negb _ && _); [intros H; scan_trace H|]. cbv zeta.
  destruct (gnss_ret e) eqn:Hg; try (intros H; scan_trace H; fail).
  all: destruct (od_process_ret e <? 0).
  all: try pose proof
         (dispatch_calls sign e (after_signals e st) (od_process_output e)
            (call_od_process input)) as Hd.
  all: try destruct (dispatch sign e (after_signals e st)
                       (od_process_output e)) as [l2 [st2 | st2 | s]].
  all: intros H; scan_trace H;
    try (apply in_app_or in H; destruct H as [H | H]; [|scan_trace H]);
    try (exfalso; exact (Hd H)).
  all: injection H as <-; repeat split; try assumption; discriminate.
Qed.

(** A cycle that polls the receiver either dies on [GNSS_ERROR] or goes on to
    call the library. *)
Lemma gnss_polled (sign : Z) (e : cycle_env) (st : run_state) :
  In call_gnss_get_data (fst (body sign e st)) ->
  gnss_ret e = GNSS_ERROR /\
    body sign e st =
      ([sys_select LOOP_TIMEOUT; sys_read; call_oscillator_get_temp;
        call_gnss_get_data], Exit EXIT_FAILURE) \/
  gnss_ret e <> GNSS_ERROR /\
    In (call_od_process (cycle_input sign e)) (fst (body sign e st)).
Proof.
  rewrite body_stages.
  pose proof (acquire_spec e st) as Ha.
  pose proof (acquire_calls e st) as Hc.
  destruct (acquire e st) as [l0 [[st1 sample] | st' | s]];
    cbn [fst snd] in *.
  2, 3: intros H; destruct (wait_or_read_calls _ _ Hc H); discriminate.
  destruct Ha as (Hready & Hign & -> & -> & ->). clear Hc.
  rewrite collect_spec. unfold cycle_input.
  destruct (negb _ && _); [intros H; scan_trace H|]. cbv zeta.
  destruct (gnss_ret e) eqn:Hg; intros _.
  4: left; split; reflexivity.
  all: right; split; [discriminate|].
  all: destruct (od_process_ret e <? 0);
    try destruct (dispatch sign e (after_signals e st)
                    (od_process_output e)) as [l2 [st2 | st2 | s]].
  all: find_in_trace.
Qed.

(** ** The GNSS poll *)

(** C6: in a cycle that polls the receiver, [GNSS_INVALID] and
    [GNSS_WAITING] raise no error and the input handed to the library has
    [valid = false]; [GNSS_VALID] gives [valid = true]; [GNSS_ERROR] ends the
    process with a nonzero status before the library is called. *)
Theorem gnss_poll_outcome (sign : Z) (st : run_state) (e : cycle_env)
    (Hpoll : In call_gnss_get_data (fst (iteration sign st e))) :
  match gnss_ret e with
  | GNSS_INVALID | GNSS_WAITING =>
      poll_gnss e = ([call_gnss_get_data], Next false) /\
      feeds_validity (fst (iteration sign st e)) false
  | GNSS_VALID =>
      poll_gnss e = ([call_gnss_get_data], Next true) /\
      feeds_validity (fst (iteration sign st e)) true
  | GNSS_ERROR =>
      poll_gnss e = ([call_gnss_get_data], Exit EXIT_FAILURE) /\
      snd (iteration sign st e) = Exited EXIT_FAILURE /\
      EXIT_FAILURE <> 0 /\
      forall input, ~ In (call_od_process input) (fst (iteration sign st e))
  end.
Proof.
  apply iteration_calls in Hpoll; [|discriminate].
  assert (Hvalid : forall b,
            gnss_ret e <> GNSS_ERROR ->
            valid (cycle_input sign e) = b ->
            In (call_od_process (cycle_input sign e))
              (fst (body sign e (decrement_turns st))) ->
            feeds_validity (fst (iteration sign st e)) b).
  { intros b _ Hb Hin. split.
    - exists (cycle_input sign e). apply iteration_calls; [discriminate|].
      exact Hin.
    - intros input H. apply iteration_calls in H; [|discriminate].
      apply process_reached in H. destruct H as [-> _]. exact Hb. }
  destruct (gnss_polled sign e _ Hpoll) as [[Hg Hbody] | [Hg Hin]].
  - rewrite Hg. repeat split.
    + unfold poll_gnss. rewrite Hg. reflexivity.
    + rewrite iteration_outcome, Hbody. reflexivity.
    + discriminate.
    + intros input H. apply iteration_calls in H; [|discriminate].
      rewrite Hbody in H. scan_trace H.
  - specialize (Hvalid _ Hg eq_refl Hin). revert Hvalid.
    unfold poll_gnss, cycle_input. cbn [valid build_input].
    destruct (gnss_ret e); try contradiction; intros Hvalid;
      (split; [reflexivity | exact Hvalid]).
Qed.

Lemma gnss_poll_outcome_witness :
  let lost := deciding_cycle idle_output GNSS_INVALID None None in
  let broken := deciding_cycle idle_output GNSS_ERROR None None in
  feeds_validity (fst (iteration 1 (initial_state None) lost)) false /\
  snd (iteration 1 (initial_state None) broken) = Exited EXIT_FAILURE.
Proof.
  cbv zeta. split.
  - pose proof (gnss_poll_outcome 1 (initial_state None)
      (deciding_cycle idle_output GNSS_INVALID None None)) as H.
    cbn [gnss_ret deciding_cycle] in H. apply H. vm_compute. tauto.
  - pose proof (gnss_poll_outcome 1 (initial_state None)
      (deciding_cycle idle_output GNSS_ERROR None None)) as H.
    cbn [gnss_ret deciding_cycle] in H. apply H. vm_compute. tauto.
Defined.

(** ** Calibration *)

(** A cycle whose library call succeeded goes through the dispatcher. *)
Lemma dispatch_reached (sign : Z) (st : run_state) (e : cycle_env)
    (input : od_input) :
  In (call_od_process input) (fst (iteration sign st e)) ->
  0 <= od_process_ret e ->
  body sign e (decrement_turns st) =
    match dispatch sign e (after_signals e (decrement_turns st))
            (od_process_output e) with
    | (l, Next st') =>
        (calls_up_to_process input ++ l ++ [sys_sleep 5], Next st')
    | (l, Continue st') => (calls_up_to_process input ++ l, Continue st')
    | (l, Exit s) => (calls_up_to_process input ++ l, Exit s)
    end.
Proof.
  intros Hcall Hok. apply iteration_calls in Hcall; [|discriminate].
  apply process_reached in Hcall. destruct Hcall as (_ & _ & _ & _ & ->).
  destruct (Z.ltb_spec (od_process_ret e) 0); [lia | reflexivity].
Qed.

Ltac open_iteration Hbody :=
  unfold iteration; rewrite Hbody; unfold dispatch, apply_phase_offset.

Ltac close_iteration :=
  unfold after_body;
  match goal with
  | |- context [loop_condition ?s] => destruct (loop_condition s)
  | _ => idtac
  end;
  cbn [fst snd app calls_up_to_process].

(** C8: when the library asks for a calibration, a [NULL] from
    [od_get_calibration_parameters] ends the process with a nonzero status
    and [oscillator_calibrate] is not called; a [NULL] from
    [oscillator_calibrate] ends it likewise; [od_calibrate] is called only
    when both have succeeded, and then with their two results. *)
Theorem calibration_failures_are_fatal (sign : Z) (st : run_state)
    (e : cycle_env) (input : od_input)
    (Hcall : In (call_od_process input) (fst (iteration sign st e)))
    (Hok : 0 <= od_process_ret e)
    (Hact : action (od_process_output e) = CALIBRATE) :
  let calls := fst (iteration sign st e) in
  In call_od_get_calibration_parameters calls /\
  match calib_params e, calib_results e with
  | None, _ =>
      snd (iteration sign st e) = Exited EXIT_FAILURE /\
      (forall p s, ~ In (call_oscillator_calibrate p s) calls) /\
      (forall p r, ~ In (call_od_calibrate p r) calls)
  | Some p, None =>
      In (call_oscillator_calibrate p sign) calls /\
      snd (iteration sign st e) = Exited EXIT_FAILURE /\
      (forall p' r, ~ In (call_od_calibrate p' r) calls)
  | Some p, Some r =>
      In (call_oscillator_calibrate p sign) calls /\
      In (call_od_calibrate p r) calls /\
      snd (iteration sign st e) <> Exited EXIT_FAILURE
  end /\
  EXIT_FAILURE <> 0.
Proof.
  pose proof (dispatch_reached sign st e input Hcall Hok) as Hbody.
  cbv zeta. clear Hcall. open_iteration Hbody. rewrite Hact.
  destruct (calib_params e) as [p|]; [destruct (calib_results e) as [r|]|];
    reduce_stage; close_iteration.
  all: repeat split; try find_in_trace; try discriminate.
  all: intros ? ? H; scan_trace H.
Qed.

Lemma calibration_failures_are_fatal_witness :
  let ask := {| setpoint := 0; action := CALIBRATE; value_phase_ctrl := 0 |} in
  let refused := deciding_cycle ask GNSS_VALID None None in
  snd (iteration 1 (initial_state None) refused) = Exited EXIT_FAILURE /\
  forall p s, ~ In (call_oscillator_calibrate p s)
                   (fst (iteration 1 (initial_state None) refused)).
Proof.
  cbv zeta.
  pose proof (calibration_failures_are_fatal 1 (initial_state None)
    (deciding_cycle
       {| setpoint := 0; action := CALIBRATE; value_phase_ctrl := 0 |}
       GNSS_VALID None None)
    (cycle_input 1 (deciding_cycle
       {| setpoint := 0; action := CALIBRATE; value_phase_ctrl := 0 |}
       GNSS_VALID None None))) as H.
  cbv zeta in H. cbn [calib_params deciding_cycle] in H.
  destruct H as (_ & (Hexit & Hnone & _) & _).
  - vm_compute. tauto.
  - vm_compute. discriminate.
  - reflexivity.
  - split; [exact Hexit | exact Hnone].
Defined.

(** ** The phase jump *)

Lemma phase_jump_body (sign : Z) (st : run_state) (e : cycle_env)
    (input : od_input) :
  In (call_od_process input) (fst (iteration sign st e)) ->
  0 <= od_process_ret e ->
  action (od_process_output e) = PHASE_JUMP ->
  body sign e (decrement_turns st) =
    let w := neg32 (value_phase_ctrl (od_process_output e)) in
    if (if write_ret e =? -1 then - write_errno e else write_ret e) <? 0
    then (calls_up_to_process input ++ [sys_write w], Exit EXIT_FAILURE)
    else (calls_up_to_process input ++ [sys_write w; sys_sleep 5],
          Next (set_ignore_next_irq
                  (after_signals e (decrement_turns st)) true)).
Proof.
  intros Hcall Hok Hact.
  rewrite (dispatch_reached sign st e input Hcall Hok).
  unfold dispatch, apply_phase_offset. rewrite Hact.
  destruct (write_ret e =? -1); reduce_stage;
    [destruct (- write_errno e <? 0) | destruct (write_ret e <? 0)];
    reflexivity.
Qed.

Lemma phase_jump_writes (sign : Z) (st : run_state) (e : cycle_env)
    (input : od_input) :
  In (call_od_process input) (fst (iteration sign st e)) ->
  0 <= od_process_ret e ->
  action (od_process_output e) = PHASE_JUMP ->
  forall w, In (sys_write w) (fst (iteration sign st e)) <->
            w = neg32 (value_phase_ctrl (od_process_output e)).
Proof.
  intros Hcall Hok Hact w.
  rewrite iteration_calls by discriminate.
  rewrite (phase_jump_body sign st e input Hcall Hok Hact). cbv zeta.
  destruct (_ <? 0); cbn [fst calls_up_to_process app]; split.
  1, 3: intros H; scan_trace H; injection H as <-; reflexivity.
  all: intros ->; find_in_trace.
Qed.

(** C9: in a cycle that dispatches a phase jump with a 32-bit
    [value_phase_ctrl] [v], exactly one value is written to the PPS device;
    it is [- v] whenever [v] is not [-2^31], and for [v = -2^31] it is
    [-2^31] again, the offset itself and not its negation. *)
Theorem phase_jump_write_wraps (sign : Z) (st : run_state) (e : cycle_env)
    (input : od_input)
    (Hcall : In (call_od_process input) (fst (iteration sign st e)))
    (Hok : 0 <= od_process_ret e)
    (Hact : action (od_process_output e) = PHASE_JUMP)
    (Hrange : in_int32 (value_phase_ctrl (od_process_output e))) :
  let v := value_phase_ctrl (od_process_output e) in
  exists w,
    (forall w', In (sys_write w') (fst (iteration sign st e)) <-> w' = w) /\
    in_int32 w /\
    (w + v) mod 4294967296 = 0 /\
    (v <> INT32_MIN -> w = - v) /\
    (v = INT32_MIN -> w = INT32_MIN /\ w = v /\ w <> - v).
Proof.
  intros v. exists (neg32 v). split; [|split; [|split; [|split]]].
  - exact (phase_jump_writes sign st e input Hcall Hok Hact).
  - apply sint32_range.
  - unfold neg32, sint32. rewrite Zplus_mod.
    rewrite Zminus_mod_idemp_l. rewrite <- Zplus_mod.
    replace (- v + 2147483648 - 2147483648 + v) with 0 by lia. reflexivity.
  - intros Hv. apply neg32_exact; assumption.
  - intros Hv. rewrite Hv. repeat split. discriminate.
Qed.

Lemma phase_jump_write_wraps_witness :
  let jump v := {| setpoint := 0; action := PHASE_JUMP;
                   value_phase_ctrl := v |} in
  let e := deciding_cycle (jump INT32_MIN) GNSS_VALID None None in
  exists w,
    (forall w', In (sys_write w') (fst (iteration 1 (initial_state None) e))
                <-> w' = w) /\
    w = INT32_MIN.
Proof.
  cbv zeta.
  destruct (phase_jump_write_wraps 1 (initial_state None)
    (deciding_cycle
       {| setpoint := 0; action := PHASE_JUMP;
          value_phase_ctrl := INT32_MIN |} GNSS_VALID None None)
    (cycle_input 1 (deciding_cycle
       {| setpoint := 0; action := PHASE_JUMP;
          value_phase_ctrl := INT32_MIN |} GNSS_VALID None None)))
    as (w & Hw & _ & _ & _ & Hmin).
  - vm_compute. tauto.
  - vm_compute. discriminate.
  - reflexivity.
  - vm_compute. split; discriminate.
  - exists w. split; [exact Hw|]. apply Hmin. reflexivity.
Defined.

(** ** Dropping the sample that follows a phase jump *)

Lemma running_loops (sign : Z) (st st' : run_state) (e : cycle_env) :
  snd (iteration sign st e) = Running st' ->
  loop st' = true /\ turns st' <> 1.
Proof.
  rewrite iteration_outcome.
  destruct (snd (body sign e (decrement_turns st))) as [s | s | x];
    try discriminate.
  all: destruct (loop_condition s) eqn:Hc; try discriminate.
  all: intros [= <-]; unfold loop_condition in Hc.
  all: apply andb_prop in Hc; destruct Hc as [Hl Ht]; split; [exact Hl|].
  all: apply negb_true_iff, Z.eqb_neq in Ht; exact Ht.
Qed.

Lemma transient_not_ready (e : cycle_env) :
  transient_failure e = true -> data_ready e = false.
Proof.
  unfold transient_failure, data_ready.
  destruct (signals e <=? 1)%nat, (select_ret e =? 0), (select_ret e =? -1),
    (select_errno e =? EINTR), (read_ret e =? -1); cbn; congruence.
Qed.

(** With the flag set, the cycle of a sample stops after the read and clears
    the flag. *)
Lemma suppressed_cycle (sign : Z) (st : run_state) (e : cycle_env) :
  loop st = true -> ignore_next_irq st = true -> data_ready e = true ->
  body sign e (decrement_turns st) =
    ([sys_select LOOP_TIMEOUT; sys_read],
     Continue (set_ignore_next_irq
                 (after_signals e (decrement_turns st)) false)).
Proof.
  intros Hloop Hign Hready. rewrite body_stages.
  rewrite (acquire_data_ready e (decrement_turns st) Hready Hloop).
  cbn [decrement_turns set_turns ignore_next_irq]. rewrite Hign. reflexivity.
Qed.

(** With the flag clear, the cycle of a sample enters the State Collector. *)
Lemma unsuppressed_cycle (sign : Z) (st : run_state) (e : cycle_env) :
  loop st = true -> ignore_next_irq st = false -> data_ready e = true ->
  In call_oscillator_get_temp (fst (iteration sign st e)).
Proof.
  intros Hloop Hign Hready. apply iteration_calls; [discriminate|].
  rewrite body_stages.
  rewrite (acquire_data_ready e (decrement_turns st) Hready Hloop).
  cbn [decrement_turns set_turns ignore_next_irq]. rewrite Hign.
  rewrite collect_spec.
  destruct (negb _ && _); [find_in_trace|]. cbv zeta.
  destruct (gnss_ret e); try find_in_trace.
  all: destruct (od_process_ret e <? 0); try find_in_trace.
  all: destruct (dispatch _ _ _ _) as [l2 [st2 | st2 | s]]; find_in_trace.
Qed.

Lemma decrements_frame (k : nat) (st : run_state) :
  loop (Nat.iter k decrement_turns st) = loop st /\
  ignore_next_irq (Nat.iter k decrement_turns st) = ignore_next_irq st.
Proof.
  induction k as [|k IH]; [split; reflexivity|].
  cbn [Nat.iter]. exact IH.
Qed.

Lemma after_no_signal (e : cycle_env) (st : run_state) :
  signals e = 0%nat -> after_signals e st = st.
Proof. unfold after_signals. intros ->. reflexivity. Qed.

(** The loop after a prefix of iterations that leaves it running. *)
Lemma run_app_running (sign : Z) (envs envs' : list cycle_env) :
  forall st st' : run_state,
    final (run sign st envs) = Running st' ->
    run sign st (envs ++ envs') =
      {| trace := trace (run sign st envs) ++ trace (run sign st' envs');
         iterations := iterations (run sign st envs)
                       + iterations (run sign st' envs');
         final := final (run sign st' envs') |}.
Proof.
  induction envs as [|e envs IH]; intros st st'; cbn [run app].
  - cbn [final trace iterations]. intros [= <-].
    destruct (run sign st envs'); reflexivity.
  - destruct (iteration sign st e) as [l [st1 | s]];
      cbn [final trace iterations]; [|discriminate].
    intros H. rewrite (IH st1 st' H). cbn [trace iterations final].
    rewrite app_assoc. reflexivity.
Qed.

(** A transient failure that no signal accompanies, with turns to spare. *)
Lemma transient_iteration (sign : Z) (st : run_state) (e : cycle_env) :
  loop st = true -> transient_failure e = true -> signals e = 0%nat ->
  turns (decrement_turns st) <> 1 ->
  snd (iteration sign st e) = Running (decrement_turns st) /\
  Forall wait_or_read (fst (iteration sign st e)).
Proof.
  intros Hloop Htr Hsig Hturns.
  assert (Hloop' : loop (decrement_turns st) = true) by exact Hloop.
  assert (Hle : (signals e <= 1)%nat) by lia.
  pose proof (acquire_transient e (decrement_turns st) Htr Hle Hloop') as Ha.
  pose proof (acquire_calls e (decrement_turns st)) as Hc.
  rewrite (after_no_signal e _ Hsig) in Ha.
  unfold iteration. rewrite body_stages.
  destruct (acquire e (decrement_turns st)) as [l0 r]; cbn [fst snd] in *.
  subst r. unfold after_body, loop_condition. rewrite Hloop'.
  apply Z.eqb_neq in Hturns. rewrite Hturns. cbn [andb negb fst snd].
  split; [reflexivity | exact Hc].
Qed.

(** Transient failures only use up turns. *)
Lemma retries_run (sign : Z) (retries : list cycle_env) :
  forall st : run_state,
    loop st = true ->
    Forall (fun x => transient_failure x = true /\ signals x = 0%nat)
      retries ->
    (forall k, (1 <= k <= length retries)%nat ->
       turns (Nat.iter k decrement_turns st) <> 1) ->
    final (run sign st retries)
      = Running (Nat.iter (length retries) decrement_turns st) /\
    iterations (run sign st retries) = length retries /\
    Forall wait_or_read (trace (run sign st retries)).
Proof.
  induction retries as [|x retries IH]; intros st Hloop Hall Hturns;
    cbn [run length].
  - cbn. repeat split. constructor.
  - inversion Hall as [|? ? [Htr Hsig] Hrest]; subst.
    cbn [length] in Hturns.
    assert (H1 : turns (decrement_turns st) <> 1)
      by (apply (Hturns 1%nat); lia).
    destruct (transient_iteration sign st x Hloop Htr Hsig H1) as [Ho Hc].
    destruct (iteration sign st x) as [l o]; cbn [fst snd] in *. subst o.
    destruct (IH (decrement_turns st)) as (Hf & Hi & Ht).
    + exact Hloop.
    + exact Hrest.
    + intros k Hk. rewrite <- Nat.iter_succ_r. apply Hturns. lia.
    + cbn [final iterations trace]. rewrite Nat.iter_succ_r.
      repeat split; [exact Hf | congruence |].
      apply Forall_app. split; assumption.
Qed.

(** With the flag set, no signal and turns to spare, the sample that is read
    is dropped and the loop goes on with the flag clear. *)
Lemma dropped_iteration (sign : Z) (st : run_state) (e : cycle_env) :
  loop st = true -> ignore_next_irq st = true ->
  data_ready e = true -> signals e = 0%nat ->
  turns (decrement_turns st) <> 1 ->
  iteration sign st e =
    ([sys_select LOOP_TIMEOUT; sys_read],
     Running (set_ignore_next_irq (decrement_turns st) false)).
Proof.
  intros Hloop Hign Hready Hsig Hturns. unfold iteration.
  rewrite (suppressed_cycle sign st e Hloop Hign Hready).
  rewrite (after_no_signal e _ Hsig).
  unfold after_body, loop_condition.
  cbn [set_ignore_next_irq decrement_turns set_turns loop turns] in *.
  rewrite Hloop. apply Z.eqb_neq in Hturns. rewrite Hturns. reflexivity.
Qed.

(** C2, as amended: in a cycle that dispatches a phase jump with a 32-bit
    [value_phase_ctrl] other than [-2^31], the one value written to the PPS
    device is its negation (-200 for 200); a write that fails ends the
    process with a nonzero status; after a write that succeeds, when no
    termination signal is delivered and the turns counter does not reach 1,
    the loop goes on with [ignore_next_irq] set, the next sample that is
    read, after any number of transient failures, is dropped right after the
    read (no call beyond [select] and [read]) and clears the flag, and the
    sample after that one enters the State Collector. *)
Theorem phase_jump_drops_next_sample (sign : Z) (st : run_state)
    (e : cycle_env) (input : od_input)
    (Hcall : In (call_od_process input) (fst (iteration sign st e)))
    (Hok : 0 <= od_process_ret e)
    (Hact : action (od_process_output e) = PHASE_JUMP)
    (Hrange : in_int32 (value_phase_ctrl (od_process_output e)))
    (Hmin : value_phase_ctrl (od_process_output e) <> INT32_MIN) :
  let v := value_phase_ctrl (od_process_output e) in
  (forall w, In (sys_write w) (fst (iteration sign st e)) <-> w = - v) /\
  (write_ret e = -1 -> 0 < write_errno e ->
   snd (iteration sign st e) = Exited EXIT_FAILURE /\ EXIT_FAILURE <> 0) /\
  (0 <= write_ret e -> signals e = 0%nat -> loop st = true ->
   turns (decrement_turns st) <> 1 ->
   let st1 := set_ignore_next_irq (decrement_turns st) true in
   snd (iteration sign st e) = Running st1 /\
   forall retries e1,
     Forall (fun x => transient_failure x = true /\ signals x = 0%nat)
       retries ->
     data_ready e1 = true -> signals e1 = 0%nat ->
     (forall k, (1 <= k <= S (length retries))%nat ->
        turns (Nat.iter k decrement_turns st1) <> 1) ->
     let r := run sign st1 (retries ++ [e1]) in
     let st2 :=
       set_ignore_next_irq
         (Nat.iter (S (length retries)) decrement_turns st1) false in
     final r = Running st2 /\
     iterations r = S (length retries) /\
     (exists l, Forall wait_or_read l /\
                trace r = l ++ [sys_select LOOP_TIMEOUT; sys_read]) /\
     forall e2, data_ready e2 = true ->
       In call_oscillator_get_temp (fst (iteration sign st2 e2))).
Proof.
  cbv zeta.
  pose proof (phase_jump_writes sign st e input Hcall Hok Hact) as Hw.
  pose proof (phase_jump_body sign st e input Hcall Hok Hact) as Hbody.
  pose proof (iteration_outcome sign st e) as Hout.
  rewrite Hbody in Hout. cbv zeta in Hout. clear Hbody.
  rewrite (neg32_exact _ Hrange Hmin) in Hw.
  split; [exact Hw|]. split.
  - intros Hret Herr. split; [|discriminate].
    rewrite Hout, Hret, Z.eqb_refl.
    destruct (Z.ltb_spec (- write_errno e) 0); [reflexivity|lia].
  - intros Hret Hsig Hloop Hturns.
    assert (Hrun : snd (iteration sign st e) =
              Running (set_ignore_next_irq (decrement_turns st) true)).
    { rewrite Hout. rewrite (after_no_signal e _ Hsig).
      destruct (Z.eqb_spec (write_ret e) (-1)); [lia|].
      destruct (Z.ltb_spec (write_ret e) 0); [lia|]. cbn [snd].
      unfold loop_condition.
      cbn [set_ignore_next_irq decrement_turns set_turns loop turns] in *.
      rewrite Hloop. apply Z.eqb_neq in Hturns. rewrite Hturns.
      reflexivity. }
    split; [exact Hrun|].
    intros retries e1 Hretries Hready Hsig1 Hspare.
    set (st1 := set_ignore_next_irq (decrement_turns st) true) in *.
    assert (Hl1 : loop st1 = true) by exact Hloop.
    destruct (retries_run sign retries st1 Hl1 Hretries) as (Hf & Hi & Ht).
    { intros k Hk. apply Hspare. lia. }
    destruct (decrements_frame (length retries) st1) as [Hl Hg].
    assert (Hdrop : iteration sign
                      (Nat.iter (length retries) decrement_turns st1) e1 =
                    ([sys_select LOOP_TIMEOUT; sys_read],
                     Running (set_ignore_next_irq
                                (Nat.iter (S (length retries))
                                   decrement_turns st1) false))).
    { apply dropped_iteration; try assumption.
      - rewrite Hl. exact Hl1.
      - apply (Hspare (S (length retries))). lia. }
    rewrite (run_app_running sign retries [e1] st1 _ Hf).
    cbn [run]. rewrite Hdrop. cbn [final iterations trace].
    rewrite Hi, app_nil_r. repeat split.
    + lia.
    + exists (trace (run sign st1 retries)). split; [exact Ht | reflexivity].
    + intros e2 Hready2. apply unsuppressed_cycle; try assumption.
      * cbn [set_ignore_next_irq loop].
        destruct (decrements_frame (S (length retries)) st1) as [Hl' _].
        rewrite Hl'. exact Hl1.
      * reflexivity.
Qed.

Lemma phase_jump_drops_next_sample_witness :
  let jump := {| setpoint := 0; action := PHASE_JUMP;
                 value_phase_ctrl := 200 |} in
  let e := deciding_cycle jump GNSS_VALID None None in
  let st1 := {| turns := UINT_MAX; loop := true; ignore_next_irq := true |} in
  let r := run 1 st1 [interrupted_wait; quiet_cycle] in
  In (sys_write (-200)) (fst (iteration 1 (initial_state None) e)) /\
  snd (iteration 1 (initial_state None) e) = Running st1 /\
  final r = Running {| turns := 4294967293; loop := true;
                       ignore_next_irq := false |} /\
  iterations r = 2%nat /\
  exists l, Forall wait_or_read l /\
            trace r = l ++ [sys_select LOOP_TIMEOUT; sys_read].
Proof.
  cbv zeta.
  destruct (phase_jump_drops_next_sample 1 (initial_state None)
    (deciding_cycle
       {| setpoint := 0; action := PHASE_JUMP; value_phase_ctrl := 200 |}
       GNSS_VALID None None)
    (cycle_input 1 (deciding_cycle
       {| setpoint := 0; action := PHASE_JUMP; value_phase_ctrl := 200 |}
       GNSS_VALID None None)))
    as (Hw & _ & Hnext).
  - vm_compute. tauto.
  - vm_compute. discriminate.
  - reflexivity.
  - vm_compute. split; discriminate.
  - vm_compute. discriminate.
  - cbv zeta in Hnext. destruct Hnext as [Hrun Hdrop].
    + vm_compute. discriminate.
    + reflexivity.
    + reflexivity.
    + vm_compute. discriminate.
    + split; [apply Hw; reflexivity|]. split; [exact Hrun|].
      destruct (Hdrop [interrupted_wait] quiet_cycle)
        as (Hfinal & Hiter & Htrace & _).
      * constructor; [split; reflexivity | constructor].
      * reflexivity.
      * reflexivity.
      * intros k Hk. destruct k as [|[|[|k]]].
        -- lia.
        -- vm_compute. discriminate.
        -- vm_compute. discriminate.
        -- cbn [length] in Hk. lia.
      * split; [exact Hfinal|]. split; [exact Hiter | exact Htrace].
Defined.

(** C2 as stated fails at [value_phase_ctrl = -2^31]: the value written is
    [-2^31] itself, not its negation.  And the flag drops a later sample only
    if there is one: with the counter at 1 after the jump the loop ends and no
    sample is dropped. *)
Lemma phase_jump_at_int32_min_not_negated :
  let jump v := {| setpoint := 0; action := PHASE_JUMP;
                   value_phase_ctrl := v |} in
  let e := deciding_cycle (jump INT32_MIN) GNSS_VALID None None in
  let last := run 1 (initial_state (Some 2))
                [deciding_cycle (jump 200) GNSS_VALID None None;
                 quiet_cycle; quiet_cycle] in
  In (call_od_process (cycle_input 1 e))
     (fst (iteration 1 (initial_state None) e)) /\
  In (sys_write INT32_MIN) (fst (iteration 1 (initial_state None) e)) /\
  ~ In (sys_write (- INT32_MIN)) (fst (iteration 1 (initial_state None) e)) /\
  In (sys_write (-200)) (trace last) /\
  iterations last = 1%nat /\ final last = Exited EXIT_SUCCESS.
Proof.
  cbv zeta. repeat split; try reflexivity.
  1, 2, 4: vm_compute; tauto.
  intros H. vm_compute in H.
  repeat (destruct H as [H | H]); try discriminate H; contradiction.
Qed.

(** ** The pause between cycles *)









(** * Further properties of the loop and of the start-up *)

(** ** Termination signals *)

Lemma acquire_killed (e : cycle_env) (st : run_state) :
  (2 <= signals e)%nat \/ (1 <= signals e)%nat /\ loop st = false ->
  acquire e st = ([sys_select LOOP_TIMEOUT], Exit EXIT_FAILURE).
Proof.
  intros H. open_acquire e st.
  destruct (signals e) as [|[|n]], (loop st); try reflexivity;
    exfalso; destruct H as [H | [H H']]; try lia; discriminate.
Qed.

(** X1: a second termination signal during the wait (or a first one when the
    loop flag is already down) ends the process on the spot with
    [EXIT_FAILURE], whatever [select] returned: nothing is read, nothing is
    handed to the library, [od_destroy] is not called. *)
Theorem signalled_twice_exits (sign : Z) (st : run_state) (e : cycle_env)
    (envs : list cycle_env)
    (Htwice : (2 <= signals e)%nat \/
              (1 <= signals e)%nat /\ loop st = false) :
  iteration sign st e = ([sys_select LOOP_TIMEOUT], Exited EXIT_FAILURE) /\
  run sign st (e :: envs) =
    {| trace := [sys_select LOOP_TIMEOUT]; iterations := 1;
       final := Exited EXIT_FAILURE |}.
Proof.
  assert (Hit : iteration sign st e
                = ([sys_select LOOP_TIMEOUT], Exited EXIT_FAILURE)).
  { unfold iteration. rewrite body_stages.
    rewrite (acquire_killed e (decrement_turns st)); [reflexivity|].
    exact Htwice. }
  split; [exact Hit|]. cbn [run]. rewrite Hit. reflexivity.
Qed.

Lemma signalled_twice_exits_witness :
  final (run 1 (initial_state None)
           [quiet_cycle; set_signals quiet_cycle 2; quiet_cycle])
  = Exited EXIT_FAILURE /\
  iteration 1 (initial_state None) (set_signals quiet_cycle 2)
  = ([sys_select LOOP_TIMEOUT], Exited EXIT_FAILURE).
Proof.
  split; [reflexivity|].
  apply (signalled_twice_exits 1 (initial_state None)
           (set_signals quiet_cycle 2) []).
  left. cbn. lia.
Defined.

Lemma acquire_one_signal (e : cycle_env) (st : run_state) :
  signals e = 1%nat -> loop st = true ->
  acquire e st =
    (fst (acquire (set_signals e 0) st),
     stop_requested (fun a => (set_loop (fst a) false, snd a))
       (snd (acquire (set_signals e 0) st))).
Proof.
  intros Hsig Hloop.
  unfold acquire, wait_for_event, read_sample, honor_ignore_next_irq.
  rewrite !deliver_signals_spec. cbn [signals set_signals select_ret
    select_errno read_ret read_errno read_phase_error].
  rewrite Hsig, Hloop. reduce_stage.
  repeat (acquire_branch e st; reduce_stage); reflexivity.
Qed.

Lemma dispatch_one_signal (sign : Z) (e : cycle_env) (st : run_state)
    (output : od_output) :
  dispatch sign e (set_loop st false) output =
    (fst (dispatch sign (set_signals e 0) st output),
     stop_requested (fun s => set_loop s false)
       (snd (dispatch sign (set_signals e 0) st output))).
Proof.
  unfold dispatch, apply_phase_offset.
  cbn [set_signals write_ret write_errno calib_params calib_results
       apply_output_ret].
  destruct (action output); reduce_stage.
  1-3: destruct (apply_output_ret e <? 0); reflexivity.
  - destruct (write_ret e =? -1); reduce_stage;
      [destruct (- write_errno e <? 0) | destruct (write_ret e <? 0)];
      reflexivity.
  - destruct (calib_params e) as [p|]; reduce_stage;
      [destruct (calib_results e) as [r|]|]; reflexivity.
Qed.

(** With one signal the body makes the calls it would have made without,
    and only the loop flag differs in what it hands on. *)
Lemma body_one_signal (sign : Z) (e : cycle_env) (st : run_state) :
  signals e = 1%nat -> loop st = true ->
  body sign e st =
    (fst (body sign (set_signals e 0) st),
     stop_requested (fun s => set_loop s false)
       (snd (body sign (set_signals e 0) st))).
Proof.
  intros Hsig Hloop. rewrite !body_stages.
  rewrite (acquire_one_signal e st Hsig Hloop).
  destruct (acquire (set_signals e 0) st) as [l0 [[st1 sample] | st1 | x]];
    cbn [fst snd stop_requested]; try reflexivity.
  rewrite !collect_spec.
  cbn [set_signals get_temp_ret get_temp_value gnss_ret gnss_qErr
       ctrl_values od_process_ret od_process_output].
  destruct (negb _ && _); [reflexivity|]. cbv zeta.
  destruct (gnss_ret e); try reflexivity.
  all: destruct (od_process_ret e <? 0); [reflexivity|].
  all: rewrite dispatch_one_signal.
  all: destruct (dispatch sign (set_signals e 0) st1 (od_process_output e))
         as [l2 [st2 | st2 | x]]; reflexivity.
Qed.

(** X2: a single termination signal does not cut the cycle short: the
    iteration makes exactly the calls it would have made without the signal,
    and then, unless that cycle is fatal anyway, the loop ends, [od_destroy]
    is called and the process exits with status 0. *)
Theorem one_signal_finishes_the_cycle (sign : Z) (st : run_state)
    (e : cycle_env)
    (Hsig : signals e = 1%nat) (Hloop : loop st = true) :
  let undisturbed := iteration sign st (set_signals e 0) in
  let calls := fst (body sign (set_signals e 0) (decrement_turns st)) in
  fst (body sign e (decrement_turns st)) = calls /\
  (snd undisturbed = Exited EXIT_FAILURE ->
   iteration sign st e = (calls, Exited EXIT_FAILURE)) /\
  (snd undisturbed <> Exited EXIT_FAILURE ->
   iteration sign st e = (calls ++ [call_od_destroy], Exited EXIT_SUCCESS)).
Proof.
  cbv zeta.
  pose proof (body_one_signal sign e (decrement_turns st) Hsig Hloop) as Hb.
  pose proof (body_exit_status sign (set_signals e 0) (decrement_turns st))
    as Hexit.
  rewrite (iteration_outcome sign st (set_signals e 0)).
  unfold iteration. rewrite Hb.
  destruct (body sign (set_signals e 0) (decrement_turns st))
    as [l [s | s | x]]; cbn [fst snd stop_requested] in *.
  3: rewrite (Hexit x eq_refl); repeat split; intros H; contradiction.
  all: unfold after_body, loop_condition; cbn [loop set_loop andb].
  all: repeat split; intros H; try reflexivity; exfalso.
  all: destruct (loop s && _); discriminate H.
Qed.

Lemma one_signal_finishes_the_cycle_witness :
  iteration 1 (initial_state None) (set_signals quiet_cycle 1) =
  (fst (iteration 1 (initial_state None) quiet_cycle) ++ [call_od_destroy],
   Exited EXIT_SUCCESS).
Proof.
  destruct (one_signal_finishes_the_cycle 1 (initial_state None)
              (set_signals quiet_cycle 1)) as (_ & _ & H).
  - reflexivity.
  - reflexivity.
  - apply H. vm_compute. discriminate.
Defined.

(** ** The temperature *)

Lemma temperature_read (sign : Z) (e : cycle_env) (st : run_state) :
  In call_oscillator_get_temp (fst (body sign e st)) ->
  (get_temp_ret e < 0 /\ get_temp_ret e <> - ENOSYS) /\
    body sign e st =
      ([sys_select LOOP_TIMEOUT; sys_read; call_oscillator_get_temp],
       Exit EXIT_FAILURE) \/
  (get_temp_ret e = - ENOSYS \/ 0 <= get_temp_ret e) /\
    In call_gnss_get_data (fst (body sign e st)).
Proof.
  rewrite body_stages.
  pose proof (acquire_spec e st) as Ha.
  pose proof (acquire_calls e st) as Hc.
  destruct (acquire e st) as [l0 [[st1 sample] | st' | s]];
    cbn [fst snd] in *.
  2, 3: intros H; destruct (wait_or_read_calls _ _ Hc H); discriminate.
  destruct Ha as (_ & _ & _ & _ & ->). clear Hc.
  rewrite collect_spec. intros _.
  destruct (Z.eqb_spec (get_temp_ret e) (- ENOSYS)) as [Heq | Hne];
    destruct (Z.ltb_spec (get_temp_ret e) 0) as [Hlt | Hge];
    cbn [negb andb fst snd app]; cbv zeta.
  3: left; split; [split; assumption | reflexivity].
  all: right; split; [auto|].
  all: destruct (gnss_ret e); try find_in_trace.
  all: destruct (od_process_ret e <? 0); try find_in_trace.
  all: destruct (dispatch _ _ _ _) as [l2 [st2 | st2 | s]]; find_in_trace.
Qed.

(** X3: in a cycle that asks the oscillator for its temperature, an answer of
    [-ENOSYS] is no error and the library is given temperature 0; any other
    negative answer ends the process with [EXIT_FAILURE] before the receiver
    is polled; otherwise the library is given the value read. *)
Theorem temperature_defaults_to_zero (sign : Z) (st : run_state)
    (e : cycle_env)
    (Htemp : In call_oscillator_get_temp (fst (iteration sign st e))) :
  let calls := fst (iteration sign st e) in
  (get_temp_ret e = - ENOSYS \/ 0 <= get_temp_ret e ->
   In call_gnss_get_data calls /\
   forall input, In (call_od_process input) calls ->
     temperature input =
       if get_temp_ret e =? - ENOSYS then 0 else get_temp_value e) /\
  (get_temp_ret e < 0 -> get_temp_ret e <> - ENOSYS ->
   snd (iteration sign st e) = Exited EXIT_FAILURE /\
   ~ In call_gnss_get_data calls /\
   forall input, ~ In (call_od_process input) calls).
Proof.
  cbv zeta. apply iteration_calls in Htemp; [|discriminate].
  destruct (temperature_read sign e _ Htemp) as [[Hbad Hbody] | [Hok Hgnss]];
    split.
  - intros [H | H]; lia.
  - intros _ _. rewrite iteration_outcome, Hbody. repeat split.
    + intros H. apply iteration_calls in H; [|discriminate].
      rewrite Hbody in H. scan_trace H.
    + intros input H. apply iteration_calls in H; [|discriminate].
      rewrite Hbody in H. scan_trace H.
  - intros _. split; [apply iteration_calls; [discriminate | exact Hgnss]|].
    intros input H. apply iteration_calls in H; [|discriminate].
    apply process_reached in H. destruct H as [-> _]. reflexivity.
  - intros Hneg Hne. destruct Hok; [contradiction | lia].
Qed.

Lemma temperature_defaults_to_zero_witness :
  let e := deciding_cycle idle_output GNSS_VALID None None in
  In call_gnss_get_data (fst (iteration 1 (initial_state None) e)) /\
  temperature (cycle_input 1 e) = 0.
Proof.
  cbv zeta.
  destruct (temperature_defaults_to_zero 1 (initial_state None)
              (deciding_cycle idle_output GNSS_VALID None None))
    as [Hsoft _].
  - vm_compute. tauto.
  - destruct Hsoft as [Hgnss Htemp]; [left; reflexivity|].
    split; [exact Hgnss|]. apply Htemp. vm_compute. tauto.
Defined.

(** ** The answer of the library *)

(** X4: when [od_process] returns a negative value the process exits with
    [EXIT_FAILURE] right after that call: the dispatcher makes no call and the
    process does not sleep. *)
Theorem library_failure_is_fatal (sign : Z) (st : run_state) (e : cycle_env)
    (input : od_input)
    (Hcall : In (call_od_process input) (fst (iteration sign st e)))
    (Hfail : od_process_ret e < 0) :
  iteration sign st e = (calls_up_to_process input, Exited EXIT_FAILURE) /\
  (forall c, dispatch_call c -> ~ In c (fst (iteration sign st e))) /\
  (forall s, ~ In (sys_sleep s) (fst (iteration sign st e))).
Proof.
  apply iteration_calls in Hcall; [|discriminate].
  apply process_reached in Hcall. destruct Hcall as (_ & _ & _ & _ & Hbody).
  destruct (Z.ltb_spec (od_process_ret e) 0) as [_ | H]; [|lia].
  assert (Hit : iteration sign st e
                = (calls_up_to_process input, Exited EXIT_FAILURE)).
  { unfold iteration. rewrite Hbody. reflexivity. }
  rewrite Hit. repeat split.
  - intros c Hc H. scan_trace H; subst c; exact Hc.
  - intros s H. scan_trace H.
Qed.

Lemma library_failure_is_fatal_witness :
  let failing :=
    {| signals := 0;
       select_ret := 1; select_errno := 0;
       read_ret := 4; read_errno := 0; read_phase_error := 0;
       get_temp_ret := 0; get_temp_value := 0;
       gnss_ret := GNSS_VALID; gnss_qErr := 0;
       ctrl_values := ctrl_values quiet_cycle;
       od_process_ret := -5; od_process_output := idle_output;
       write_ret := 4; write_errno := 0;
       calib_params := None; calib_results := None;
       apply_output_ret := 0 |} in
  snd (iteration 1 (initial_state None) failing) = Exited EXIT_FAILURE.
Proof.
  cbv zeta.
  match goal with
  | |- snd (iteration _ _ ?e) = _ =>
      destruct (library_failure_is_fatal 1 (initial_state None) e
                  (cycle_input 1 e)) as (H & _)
  end.
  - vm_compute. tauto.
  - cbn. lia.
  - rewrite H. reflexivity.
Defined.

(** ** What the dispatcher does, and what it does not *)

Lemma dispatcher_call_reached (sign : Z) (e : cycle_env) (st : run_state)
    (c : call) :
  dispatch_call c -> In c (fst (body sign e st)) ->
  (od_process_ret e <? 0) = false /\
  In c (fst (dispatch sign e (after_signals e st) (od_process_output e))).
Proof.
  intros Hc. rewrite body_stages.
  pose proof (acquire_spec e st) as Ha.
  pose proof (acquire_calls e st) as Hcalls.
  destruct (acquire e st) as [l0 [[st1 sample] | st' | s]];
    cbn [fst snd] in *.
  2, 3: intros H; destruct (wait_or_read_calls _ _ Hcalls H); subst c;
        contradiction.
  destruct Ha as (_ & _ & -> & _ & ->). clear Hcalls.
  rewrite collect_spec.
  destruct (negb _ && _);
    [intros H; scan_trace H; subst c; contradiction|]. cbv zeta.
  destruct (gnss_ret e).
  4: intros H; scan_trace H; subst c; contradiction.
  all: destruct (od_process_ret e <? 0);
    [intros H; scan_trace H; subst c; contradiction|].
  all: destruct (dispatch sign e (after_signals e st) (od_process_output e))
         as [l2 [st2 | st2 | s]]; cbn [fst snd app In].
  all: rewrite ?in_app_iff; cbn [In]; intros H.
  all: repeat (destruct H as [H | H]); try contradiction;
       try (subst c; contradiction); split; [reflexivity | exact H].
Qed.

(** X5: the dispatcher does one thing per cycle, chosen by the action: the
    PPS device is written only for [PHASE_JUMP], the calibration entry points
    are called only for [CALIBRATE] (the oscillator with the parameters the
    library gave and the configured sign, the library with those parameters
    and the results of the oscillator), and [oscillator_apply_output] is
    called only for the other actions, with the output of the library
    untouched. *)
Theorem dispatcher_follows_action (sign : Z) (st : run_state)
    (e : cycle_env) :
  let calls := fst (iteration sign st e) in
  let output := od_process_output e in
  (forall w, In (sys_write w) calls -> action output = PHASE_JUMP) /\
  (In call_od_get_calibration_parameters calls ->
   action output = CALIBRATE) /\
  (forall p s, In (call_oscillator_calibrate p s) calls ->
     action output = CALIBRATE /\ calib_params e = Some p /\ s = sign) /\
  (forall p r, In (call_od_calibrate p r) calls ->
     action output = CALIBRATE /\ calib_params e = Some p /\
     calib_results e = Some r) /\
  (forall o, In (call_oscillator_apply_output o) calls ->
     o = output /\ action o <> PHASE_JUMP /\ action o <> CALIBRATE).
Proof.
  cbv zeta.
  assert (Hreach : forall c, dispatch_call c ->
            In c (fst (iteration sign st e)) ->
            In c (fst (dispatch sign e
                         (after_signals e (decrement_turns st))
                         (od_process_output e)))).
  { intros c Hc H. apply iteration_calls in H; [|intros ->; exact Hc].
    apply (dispatcher_call_reached sign e _ c Hc H). }
  repeat split.
  all: try (intros ? ? H); try (intros ? H); try (intros H).
  all: apply Hreach in H; [|exact I]; revert H.
  all: unfold dispatch, apply_phase_offset.
  all: destruct (action (od_process_output e)) eqn:Hact; reduce_stage.
  all: try (destruct (apply_output_ret e <? 0)).
  all: try (destruct (write_ret e =? -1); reduce_stage;
            [destruct (- write_errno e <? 0) | destruct (write_ret e <? 0)]).
  all: try (destruct (calib_params e) as [p'|]; reduce_stage;
            [destruct (calib_results e) as [r'|]|]).
  all: intros H; scan_trace H; try reflexivity.
  all: try (injection H as <-); try (injection H as <- <-);
       try reflexivity; try congruence.
Qed.

Lemma dispatcher_follows_action_witness :
  let jump := {| setpoint := 0; action := PHASE_JUMP;
                 value_phase_ctrl := 200 |} in
  let e := deciding_cycle jump GNSS_VALID None None in
  In (sys_write (-200)) (fst (iteration 1 (initial_state None) e)) /\
  action (od_process_output e) = PHASE_JUMP.
Proof.
  cbv zeta.
  assert (Hw : In (sys_write (-200))
                 (fst (iteration 1 (initial_state None)
                         (deciding_cycle
                            {| setpoint := 0; action := PHASE_JUMP;
                               value_phase_ctrl := 200 |}
                            GNSS_VALID None None))))
    by (vm_compute; tauto).
  split; [exact Hw|].
  destruct (dispatcher_follows_action 1 (initial_state None)
              (deciding_cycle
                 {| setpoint := 0; action := PHASE_JUMP;
                    value_phase_ctrl := 200 |} GNSS_VALID None None))
    as (Hwrite & _).
  exact (Hwrite (-200) Hw).
Defined.

(** X6: for an action other than [PHASE_JUMP] and [CALIBRATE] the output of
    the library goes to [oscillator_apply_output]; a negative return ends the
    process with [EXIT_FAILURE] without the sleep, any other return is followed
    by the sleep and leaves [ignore_next_irq] clear. *)
Theorem setpoint_is_applied (sign : Z) (st : run_state) (e : cycle_env)
    (input : od_input)
    (Hcall : In (call_od_process input) (fst (iteration sign st e)))
    (Hok : 0 <= od_process_ret e)
    (Hact : is_phase_jump (action (od_process_output e)) = false /\
            action (od_process_output e) <> CALIBRATE) :
  let applied :=
    calls_up_to_process input
    ++ [call_oscillator_apply_output (od_process_output e)] in
  (apply_output_ret e < 0 ->
   iteration sign st e = (applied, Exited EXIT_FAILURE)) /\
  (0 <= apply_output_ret e ->
   fst (body sign e (decrement_turns st)) = applied ++ [sys_sleep 5] /\
   snd (iteration sign st e) <> Exited EXIT_FAILURE /\
   forall st', snd (iteration sign st e) = Running st' ->
     ignore_next_irq st' = false).
Proof.
  cbv zeta. destruct Hact as [Hjump Hcal].
  pose proof (dispatch_reached sign st e input Hcall Hok) as Hbody.
  apply iteration_calls in Hcall; [|discriminate].
  apply process_reached in Hcall. destruct Hcall as (_ & _ & Hign & _).
  destruct (after_signals_frame e (decrement_turns st)) as (_ & Hi & _).
  cbn [decrement_turns set_turns ignore_next_irq] in Hign.
  assert (Hd : dispatch sign e (after_signals e (decrement_turns st))
                 (od_process_output e) =
               ([call_oscillator_apply_output (od_process_output e)],
                if apply_output_ret e <? 0 then Exit EXIT_FAILURE
                else Next (after_signals e (decrement_turns st)))).
  { unfold dispatch.
    destruct (action (od_process_output e)); try discriminate;
      try contradiction; reduce_stage;
      destruct (apply_output_ret e <? 0); reflexivity. }
  rewrite Hd in Hbody. rewrite iteration_outcome. unfold iteration.
  rewrite Hbody. clear Hbody Hd.
  destruct (Z.ltb_spec (apply_output_ret e) 0); split; intros H';
    try lia; cbn [fst snd app calls_up_to_process].
  - reflexivity.
  - repeat split.
    + destruct (loop_condition _); discriminate.
    + intros st'. destruct (loop_condition _); [|discriminate].
      intros [= <-]. rewrite Hi. exact Hign.
Qed.

Lemma setpoint_is_applied_witness :
  In (call_oscillator_apply_output idle_output)
     (fst (body 1 quiet_cycle (decrement_turns (initial_state None)))).
Proof.
  destruct (setpoint_is_applied 1 (initial_state None) quiet_cycle
              (cycle_input 1 quiet_cycle)) as [_ Happlied].
  - vm_compute. tauto.
  - cbn. lia.
  - split; [reflexivity | discriminate].
  - destruct Happlied as (-> & _); [cbn; lia|]. find_in_trace.
Defined.

(** ** The flag across an iteration *)

Lemma ready_not_transient (e : cycle_env) :
  data_ready e = true -> transient_failure e = false.
Proof.
  intros H. destruct (transient_failure e) eqn:Ht; [|reflexivity].
  apply transient_not_ready in Ht. congruence.
Qed.

(** X7: whenever the loop goes on after an iteration, [ignore_next_irq] is
    known from the iteration alone: if it was set, it stays set exactly when
    the iteration was a transient failure (the sample has not been read
    yet); if it was clear, it is set exactly when a sample was read and the
    library asked for a phase jump. *)
Theorem flag_after_iteration (sign : Z) (st st' : run_state) (e : cycle_env)
    (Hrun : snd (iteration sign st e) = Running st') :
  ignore_next_irq st' =
    if ignore_next_irq st then transient_failure e
    else data_ready e && is_phase_jump (action (od_process_output e)).
Proof.
  rewrite iteration_outcome in Hrun. revert Hrun. rewrite body_stages.
  pose proof (acquire_spec e (decrement_turns st)) as Ha.
  destruct (after_signals_frame e (decrement_turns st)) as (_ & Hi & _).
  cbn [decrement_turns set_turns ignore_next_irq] in Ha, Hi.
  destruct (acquire e (decrement_turns st))
    as [l0 [[st1 sample] | st1 | s]]; cbn [fst snd] in *;
    [| | discriminate].
  - destruct Ha as (Hready & Hign & -> & _ & _).
    rewrite Hign, Hready. cbn [andb].
    rewrite collect_spec.
    destruct (negb _ && _); [discriminate|]. cbv zeta.
    pose proof (dispatch_spec sign e (after_signals e (decrement_turns st))
                  (od_process_output e)) as Hd.
    destruct (gnss_ret e); try discriminate.
    all: destruct (od_process_ret e <? 0); [discriminate|].
    all: destruct (dispatch _ _ _ _) as [l2 [st2 | st2 | s]];
      cbn [snd] in *; try discriminate; try contradiction.
    all: destruct (loop_condition st2); [|discriminate].
    all: intros [= <-]; destruct Hd as (_ & _ & ->).
    all: cbn [decrement_turns set_turns ignore_next_irq] in *.
    all: destruct (action (od_process_output e)); cbn [is_phase_jump];
      congruence.
  - destruct (loop_condition st1); [|discriminate]. intros [= <-].
    destruct Ha as [[Htr ->] | (Hready & Hign & -> & _)].
    + rewrite Hi, Htr. rewrite (transient_not_ready e Htr).
      destruct (ignore_next_irq st); reflexivity.
    + rewrite Hign. rewrite (ready_not_transient e Hready). reflexivity.
Qed.

Lemma flag_after_iteration_witness :
  let jump := {| setpoint := 0; action := PHASE_JUMP;
                 value_phase_ctrl := 200 |} in
  let e := deciding_cycle jump GNSS_VALID None None in
  let st' := {| turns := UINT_MAX; loop := true; ignore_next_irq := true |} in
  snd (iteration 1 (initial_state None) e) = Running st' /\
  ignore_next_irq st' =
    data_ready e && is_phase_jump (action (od_process_output e)).
Proof.
  cbv zeta. split; [reflexivity|].
  apply (flag_after_iteration 1 (initial_state None)
           {| turns := UINT_MAX; loop := true; ignore_next_irq := true |}
           (deciding_cycle
              {| setpoint := 0; action := PHASE_JUMP;
                 value_phase_ctrl := 200 |} GNSS_VALID None None)).
  reflexivity.
Defined.

(** ** Leaving the loop *)

Lemma body_never_destroys (sign : Z) (e : cycle_env) (st : run_state) :
  ~ In call_od_destroy (fst (body sign e st)).
Proof.
  rewrite body_stages.
  pose proof (acquire_calls e st) as Hc.
  pose proof (acquire_spec e st) as Ha.
  destruct (acquire e st) as [l0 [[st1 sample] | st' | s]];
    cbn [fst snd] in *.
  2, 3: intros H; destruct (wait_or_read_calls _ _ Hc H); discriminate.
  destruct Ha as (_ & _ & _ & _ & ->). clear Hc.
  rewrite collect_spec.
  destruct (negb _ && _); [intros H; scan_trace H|]. cbv zeta.
  destruct (gnss_ret e).
  4: intros H; scan_trace H.
  all: destruct (od_process_ret e <? 0); [intros H; scan_trace H|].
  all: pose proof (dispatch_calls sign e st1 (od_process_output e)
                     call_od_destroy) as Hd.
  all: destruct (dispatch sign e st1 (od_process_output e))
         as [l2 [st2 | st2 | s]]; cbn [fst snd app In] in *.
  all: rewrite ?in_app_iff; cbn [In]; intros H.
  all: repeat (destruct H as [H | H]); try discriminate H;
       try contradiction; exact (Hd H).
Qed.

Lemma iteration_destroys (sign : Z) (st : run_state) (e : cycle_env) :
  (In call_od_destroy (fst (iteration sign st e)) <->
   snd (iteration sign st e) = Exited EXIT_SUCCESS) /\
  (snd (iteration sign st e) = Exited EXIT_SUCCESS ->
   fst (iteration sign st e) =
     fst (body sign e (decrement_turns st)) ++ [call_od_destroy]) /\
  (forall s, snd (iteration sign st e) = Exited s ->
     s = EXIT_SUCCESS \/ s = EXIT_FAILURE).
Proof.
  pose proof (body_never_destroys sign e (decrement_turns st)) as Hnever.
  pose proof (body_exit_status sign e (decrement_turns st)) as Hexit.
  unfold iteration, after_body.
  destruct (body sign e (decrement_turns st)) as [l [s | s | x]];
    cbn [fst snd] in *.
  3: { rewrite (Hexit x eq_refl). split; [split|split].
       - intros H. contradiction.
       - discriminate.
       - discriminate.
       - intros s [= <-]. right. reflexivity. }
  all: destruct (loop_condition s); cbn [fst snd]; (split; [split|split]).
  all: try discriminate; try contradiction; try reflexivity.
  all: try (intros s' [= <-]; left; reflexivity).
  all: intros _; apply in_or_app; right; left; reflexivity.
Qed.

Lemma run_exit_status (sign : Z) (envs : list cycle_env) :
  forall (st : run_state) (s : Z),
    final (run sign st envs) = Exited s ->
    s = EXIT_SUCCESS \/ s = EXIT_FAILURE.
Proof.
  induction envs as [|e envs IH]; intros st s; cbn [run].
  - discriminate.
  - destruct (iteration_destroys sign st e) as (_ & _ & Hstatus).
    destruct (iteration sign st e) as [l [st' | x]]; cbn [snd final] in *.
    + apply IH.
    + apply Hstatus.
Qed.

Lemma run_clean_exit (sign : Z) (envs : list cycle_env) :
  forall st : run_state,
    final (run sign st envs) = Exited EXIT_SUCCESS ->
    (0 < iterations (run sign st envs))%nat /\
    exists l, trace (run sign st envs) = l ++ [call_od_destroy] /\
              ~ In call_od_destroy l.
Proof.
  induction envs as [|e envs IH]; intros st; cbn [run].
  - discriminate.
  - destruct (iteration_destroys sign st e) as (Hin & Hlast & _).
    pose proof (body_never_destroys sign e (decrement_turns st)) as Hnever.
    destruct (iteration sign st e) as [l [st' | x]];
      cbn [fst snd final trace iterations] in *.
    + assert (Hl : ~ In call_od_destroy l)
        by (intros H; apply Hin in H; discriminate H).
      intros H. destruct (IH st' H) as (_ & l' & -> & Hl').
      split; [lia|]. exists (l ++ l'). split; [apply app_assoc|].
      intros Hin'. apply in_app_or in Hin'. tauto.
    + intros H. split; [lia|].
      exists (fst (body sign e (decrement_turns st))).
      split; [exact (Hlast H) | exact Hnever].
Qed.

(** X8: [od_destroy] runs only when [main] returns with status 0: the call of
    line 303 is then made after every call of the loop, and the cleanup
    handlers follow it, that of [od], a second [od_destroy], last.  Every
    other exit is an [exit(EXIT_FAILURE)] from inside the loop: the call of
    line 303 is not made and no cleanup handler runs. *)
Theorem od_destroy_marks_clean_exit (sign : Z) (envs : list cycle_env) :
  forall st : run_state,
    let r := run sign st envs in
    (In call_od_destroy (trace r) <-> final r = Exited EXIT_SUCCESS) /\
    (final r = Exited EXIT_SUCCESS ->
     (exists l, trace r = l ++ [call_od_destroy]) /\
     handlers_on_return (final r) =
       [cleanup_oscillator_factory_destroy; cleanup_fd_cleanup;
        cleanup_od_destroy]) /\
    (forall s, final r = Exited s -> s <> EXIT_SUCCESS ->
       s = EXIT_FAILURE /\ ~ In call_od_destroy (trace r) /\
       handlers_on_return (final r) = []).
Proof.
  intros st. cbv zeta.
  assert (Hiff : In call_od_destroy (trace (run sign st envs)) <->
                 final (run sign st envs) = Exited EXIT_SUCCESS).
  { split.
    - revert st. induction envs as [|e envs IH]; intros st; cbn [run].
      + intros [].
      + destruct (iteration_destroys sign st e) as (Hin & _ & _).
        destruct (iteration sign st e) as [l [st' | x]];
          cbn [fst snd final trace] in *.
        * intros H. apply in_app_or in H. destruct H as [H | H].
          -- apply Hin in H. discriminate H.
          -- apply IH. exact H.
        * apply Hin.
    - intros H. destruct (run_clean_exit sign envs st H) as (_ & l & -> & _).
      apply in_or_app. right. left. reflexivity. }
  split; [exact Hiff|]. split.
  - intros H. split.
    + destruct (run_clean_exit sign envs st H) as (_ & l & Hl & _).
      exists l. exact Hl.
    + rewrite H. reflexivity.
  - intros s Hs Hne.
    destruct (run_exit_status sign envs st s Hs) as [H0 | H1];
      [contradiction|].
    split; [exact H1|]. split.
    + intros Hin. apply Hiff in Hin. congruence.
    + rewrite Hs, H1. reflexivity.
Qed.

(** ** The turns counter along a run *)

Lemma iteration_turns (sign : Z) (st st' : run_state) (e : cycle_env) :
  snd (iteration sign st e) = Running st' ->
  turns st' = uint32 (turns st - 1) /\ signals e = 0%nat.
Proof.
  intros Hrun. destruct (running_loops sign st st' e Hrun) as [Hl _].
  rewrite iteration_outcome in Hrun.
  pose proof (body_frame sign e (decrement_turns st) st') as Hframe.
  destruct (after_signals_frame e (decrement_turns st)) as (_ & _ & Hls).
  destruct (snd (body sign e (decrement_turns st))) as [s | s | x];
    [| | discriminate].
  all: destruct (loop_condition s); [|discriminate].
  all: injection Hrun as ->; destruct (Hframe eq_refl) as [Ht Hl'].
  all: split; [exact Ht|].
  all: rewrite Hls, Hl in Hl'; symmetry in Hl'.
  all: apply andb_prop in Hl'; destruct Hl' as [_ Hs].
  all: apply Nat.eqb_eq; exact Hs.
Qed.

(** X10: as long as the loop goes on, every iteration has consumed exactly
    one turn, whether it processed a sample, dropped it or failed
    transiently: after [k] iterations the counter is its first value minus
    [k] modulo 2^32, it is not 1, the loop flag is up and no termination
    signal has been delivered. *)
Theorem every_iteration_consumes_a_turn (sign : Z) (envs : list cycle_env) :
  forall (st st' : run_state)
    (Hrange : in_uint32 (turns st))
    (Hrun : final (run sign st envs) = Running st'),
    iterations (run sign st envs) = length envs /\
    turns st' = uint32 (turns st - Z.of_nat (length envs)) /\
    Forall (fun e => signals e = 0%nat) envs /\
    (envs <> [] -> loop st' = true /\ turns st' <> 1).
Proof.
  induction envs as [|e envs IH]; intros st st' Hrange; cbn [run].
  - cbn [final iterations length]. intros [= <-].
    split; [reflexivity|].
    split; [|split; [constructor | intros H; contradiction]].
    cbn. rewrite Z.sub_0_r. unfold uint32, in_uint32, UINT_MAX in *.
    symmetry. apply Z.mod_small. lia.
  - destruct (iteration sign st e) as [l [st1 | s]] eqn:Hit1;
      cbn [final iterations]; [|discriminate].
    assert (Hsnd : snd (iteration sign st e) = Running st1)
      by (rewrite Hit1; reflexivity).
    destruct (iteration_turns sign st st1 e Hsnd) as [Ht Hs].
    destruct (running_loops sign st st1 e Hsnd) as [Hl1 Hne1].
    intros Hrun.
    assert (Hrange1 : in_uint32 (turns st1))
      by (rewrite Ht; apply uint32_range).
    destruct (IH st1 st' Hrange1 Hrun) as (Hit & Ht' & Hall & Hlast).
    split; [cbn [length]; congruence|].
    split; [|split; [constructor; assumption|]].
    + rewrite Ht', Ht. unfold uint32. rewrite Zminus_mod_idemp_l.
      f_equal. cbn [length]. lia.
    + intros _. destruct envs as [|e' envs'].
      * cbn [run final] in Hrun. injection Hrun as <-. split; assumption.
      * apply Hlast. discriminate.
Qed.

Lemma every_iteration_consumes_a_turn_witness :
  let r := run 1 (initial_state (Some 9))
             [quiet_cycle; interrupted_wait; quiet_cycle] in
  final r = Running {| turns := 6; loop := true; ignore_next_irq := false |}
  /\ iterations r = 3%nat.
Proof.
  cbv zeta. split; [reflexivity|].
  destruct (every_iteration_consumes_a_turn 1
              [quiet_cycle; interrupted_wait; quiet_cycle]
              (initial_state (Some 9))
              {| turns := 6; loop := true; ignore_next_irq := false |})
    as (Hit & _).
  - vm_compute. split; discriminate.
  - reflexivity.
  - exact Hit.
Defined.

Lemma od_destroy_marks_clean_exit_witness :
  let r := run 1 (initial_state (Some 2)) [quiet_cycle; quiet_cycle] in
  let failed := run 1 (initial_state None)
                  [deciding_cycle idle_output GNSS_ERROR None None] in
  final r = Exited EXIT_SUCCESS /\
  (exists l, trace r = l ++ [call_od_destroy]) /\
  final failed = Exited EXIT_FAILURE /\
  handlers_on_return (final failed) = [].
Proof.
  cbv zeta. split; [reflexivity|].
  split.
  - destruct (od_destroy_marks_clean_exit 1 [quiet_cycle; quiet_cycle]
                (initial_state (Some 2))) as (_ & Hlast & _).
    apply Hlast. reflexivity.
  - split; [reflexivity|].
    destruct (od_destroy_marks_clean_exit 1
                [deciding_cycle idle_output GNSS_ERROR None None]
                (initial_state None)) as (_ & _ & Hfail).
    apply (Hfail EXIT_FAILURE); [reflexivity | discriminate].
Defined.

(** ** Counting the calls of a run *)

Lemma count_calls_app (p : call -> bool) (l l' : list call) :
  count_calls p (l ++ l') = (count_calls p l + count_calls p l')%nat.
Proof. unfold count_calls. rewrite filter_app. apply length_app. Qed.

Lemma count_calls_none (p : call -> bool) (l : list call) :
  (forall c, In c l -> p c = false) -> count_calls p l = 0%nat.
Proof.
  unfold count_calls. induction l as [|c l IH]; intros H; [reflexivity|].
  cbn [filter]. rewrite (H c (or_introl eq_refl)).
  apply IH. intros c' Hc'. apply H. right. exact Hc'.
Qed.

Lemma dispatch_counts (sign : Z) (e : cycle_env) (st : run_state)
    (output : od_output) :
  let l := fst (dispatch sign e st output) in
  count_calls is_select l = 0%nat /\ count_calls is_read l = 0%nat /\
  count_calls is_process l = 0%nat /\ count_calls is_sleep l = 0%nat.
Proof.
  cbv zeta. repeat split; apply count_calls_none; intros c Hc;
    apply dispatch_calls in Hc; destruct c; try contradiction; reflexivity.
Qed.

Lemma acquire_shape (e : cycle_env) (st : run_state) :
  fst (acquire e st) = [sys_select LOOP_TIMEOUT] \/
  fst (acquire e st) = [sys_select LOOP_TIMEOUT; sys_read].
Proof. walk_acquire e st; auto. Qed.

Lemma body_counts (sign : Z) (e : cycle_env) (st : run_state) :
  let l := fst (body sign e st) in
  count_calls is_select l = 1%nat /\
  (count_calls is_sleep l <= count_calls is_process l)%nat /\
  (count_calls is_process l <= count_calls is_read l)%nat /\
  (count_calls is_read l <= 1)%nat.
Proof.
  cbv zeta. rewrite body_stages.
  pose proof (acquire_shape e st) as Hs.
  pose proof (acquire_spec e st) as Ha.
  destruct (acquire e st) as [l0 [[st1 sample] | st' | s]];
    cbn [fst snd] in *.
  2, 3: destruct Hs as [-> | ->]; cbn; lia.
  destruct Ha as (_ & _ & _ & _ & ->). clear Hs.
  rewrite collect_spec.
  destruct (negb _ && _); [cbn; lia|]. cbv zeta.
  destruct (gnss_ret e); try (cbn; lia).
  all: destruct (od_process_ret e <? 0); [cbn; lia|].
  all: destruct (dispatch_counts sign e st1 (od_process_output e))
         as (H1 & H2 & H3 & H4).
  all: destruct (dispatch sign e st1 (od_process_output e))
         as [l2 [st2 | st2 | s]]; cbn [fst snd] in *.
  all: unfold count_calls in *.
  all: cbn [app filter is_select is_read is_process is_sleep length].
  all: rewrite ?filter_app, ?length_app, ?H1, ?H2, ?H3, ?H4.
  all: cbn [filter is_select is_read is_process is_sleep length]; lia.
Qed.

Lemma iteration_counts (sign : Z) (st : run_state) (e : cycle_env) :
  let l := fst (iteration sign st e) in
  count_calls is_select l = 1%nat /\
  (count_calls is_sleep l <= count_calls is_process l)%nat /\
  (count_calls is_process l <= count_calls is_read l)%nat /\
  (count_calls is_read l <= 1)%nat.
Proof.
  cbv zeta.
  pose proof (body_counts sign e (decrement_turns st)) as Hb.
  cbv zeta in Hb. unfold iteration, after_body.
  destruct (body sign e (decrement_turns st)) as [l [s | s | x]];
    cbn [fst] in *; try exact Hb.
  all: destruct (loop_condition s); cbn [fst]; try exact Hb.
  all: rewrite !count_calls_app; cbn; lia.
Qed.

(** X9: a run waits on the PPS device exactly once per iteration, reads at
    most one sample per wait, hands at most one input to the library per
    sample read, and sleeps at most once per answer of the library. *)
Theorem one_wait_per_iteration (sign : Z) (envs : list cycle_env) :
  forall st : run_state,
    let r := run sign st envs in
    count_calls is_select (trace r) = iterations r /\
    (count_calls is_sleep (trace r) <= count_calls is_process (trace r))%nat
    /\
    (count_calls is_process (trace r) <= count_calls is_read (trace r))%nat
    /\
    (count_calls is_read (trace r) <= iterations r)%nat.
Proof.
  induction envs as [|e envs IH]; intros st; cbv zeta; cbn [run].
  - cbn. lia.
  - pose proof (iteration_counts sign st e) as Hc. cbv zeta in Hc.
    destruct (iteration sign st e) as [l [st' | s]];
      cbn [fst trace iterations] in *.
    + specialize (IH st'). cbv zeta in IH.
      rewrite !count_calls_app. lia.
    + lia.
Qed.

Lemma one_wait_per_iteration_witness :
  let r := run 1 (initial_state None)
             [quiet_cycle; interrupted_wait; quiet_cycle] in
  count_calls is_select (trace r) = 3%nat /\
  count_calls is_process (trace r) = 2%nat.
Proof.
  cbv zeta. split; [|reflexivity].
  destruct (one_wait_per_iteration 1
              [quiet_cycle; interrupted_wait; quiet_cycle]
              (initial_state None)) as (H & _).
  exact H.
Defined.

(** ** The start-up *)

Ltac walk_startup s :=
  unfold startup, startup_passes, startup_sequence;
  destruct (argc s =? 2); cbn [negb andb];
  [destruct (config_init_ret s =? 0); cbn [negb andb];
   [destruct (oscillator_created s); cbn [negb andb];
    [destruct (pps_device_defined s); cbn [negb andb];
     [destruct (open_ret s =? -1); cbn [negb andb];
      [|destruct (od_created s); cbn [negb andb];
        [destruct (gnss_init_ret s <? 0); cbn [negb andb]|]]|]|]|]|];
  cbn [app fst snd].

Lemma startup_outcome (s : startup_env) :
  snd (startup s) =
    (if startup_passes s
     then Started (configured_sign (config_opposite_phase_error s))
            (initial_state (config_turns s))
     else Failed EXIT_FAILURE).
Proof. walk_startup s; reflexivity. Qed.

(** X11: the start-up makes its calls in one fixed order and stops at the
    first step that fails: what it has called is always a prefix of the full
    sequence, the whole sequence (the two [signal] calls last) exactly when
    every check passes; it then hands the loop the configured turns and
    sign, and otherwise leaves with [EXIT_FAILURE]. *)
Theorem startup_stops_at_first_failure (s : startup_env) :
  (exists rest,
     startup_sequence s = fst (startup s) ++ rest /\
     (rest = [] <-> startup_passes s = true)) /\
  snd (startup s) =
    (if startup_passes s
     then Started (configured_sign (config_opposite_phase_error s))
            (initial_state (config_turns s))
     else Failed EXIT_FAILURE).
Proof.
  split; [|apply startup_outcome].
  walk_startup s; (eexists; split; [reflexivity|]).
  all: split; try discriminate; reflexivity.
Qed.

Lemma startup_stops_at_first_failure_witness :
  let no_device :=
    {| argc := 2; config_init_ret := 0; config_debug := false;
       config_turns := None; oscillator_created := true;
       pps_device_defined := false; open_ret := 3; od_created := true;
       od_dac_min := 0; od_dac_max := 65535;
       config_opposite_phase_error := false; gnss_init_ret := 0 |} in
  snd (startup no_device) = Failed EXIT_FAILURE /\
  snd (startup (plain_startup (Some 3) true))
  = Started (-1) (initial_state (Some 3)).
Proof.
  cbv zeta. split.
  - match goal with
    | |- snd (startup ?s) = _ =>
        destruct (startup_stops_at_first_failure s) as [_ H]
    end.
    exact H.
  - destruct (startup_stops_at_first_failure (plain_startup (Some 3) true))
      as [_ H].
    exact H.
Defined.

(** X12: [main] waits on the PPS device only after a start-up in which every
    check passed; its exit status is 0 or [EXIT_FAILURE], and 0 only when the
    start-up passed, at least one iteration ran and the loop ended on its own
    test, with [od_destroy] as the last call. *)
Theorem main_exit_status (s : startup_env) (envs : list cycle_env) :
  let r := snd (main s envs) in
  ((0 < iterations r)%nat -> startup_passes s = true) /\
  (forall status, final r = Exited status ->
     status = EXIT_SUCCESS \/ status = EXIT_FAILURE) /\
  (final r = Exited EXIT_SUCCESS ->
   startup_passes s = true /\ (0 < iterations r)%nat /\
   exists l, trace r = l ++ [call_od_destroy]).
Proof.
  cbv zeta. unfold main.
  pose proof (startup_outcome s) as Hres.
  destruct (startup s) as [l [sign st | status]]; cbn [snd] in *.
  - destruct (startup_passes s); [|discriminate].
    split; [reflexivity|]. split; [apply run_exit_status|].
    intros Hexit. split; [reflexivity|].
    destruct (run_clean_exit sign envs st Hexit) as (Hit & l' & Hl' & _).
    split; [exact Hit|]. exists l'. exact Hl'.
  - destruct (startup_passes s); [discriminate|].
    injection Hres as ->. cbn [iterations final trace].
    split; [lia|]. split.
    + intros status [= <-]. right. reflexivity.
    + discriminate.
Qed.

Lemma main_exit_status_witness :
  let r := snd (main (plain_startup (Some 3) false)
                  [quiet_cycle; quiet_cycle; quiet_cycle]) in
  final r = Exited EXIT_SUCCESS /\ iterations r = 2%nat /\
  startup_passes (plain_startup (Some 3) false) = true.
Proof.
  cbv zeta. split; [reflexivity|]. split; [reflexivity|].
  destruct (main_exit_status (plain_startup (Some 3) false)
              [quiet_cycle; quiet_cycle; quiet_cycle]) as (_ & _ & H).
  destruct H as (Hpass & _); [reflexivity | exact Hpass].
Defined.

(** ** The split, whatever the sample *)

(** X13: for every sign and sample, the seconds and nanoseconds handed to the
    library recombine to the 32-bit product [sign * phase_error]; the seconds
    lie between -2 and 2, the nanoseconds strictly between -10^9 and 10^9,
    and neither has the sign opposite to the product: a negative phase error
    gives a negative [tv_nsec], the record is not normalised. *)
Theorem split_is_sign_consistent (sign sample : Z) (pps_valid : bool)
    (ctrl : oscillator_ctrl) (temp q : Z) :
  let t := phase_error (build_input sign sample pps_valid ctrl temp q) in
  let v := mul32 sign sample in
  tv_sec t * NS_IN_SECOND + tv_nsec t = v /\
  -2 <= tv_sec t <= 2 /\
  - NS_IN_SECOND < tv_nsec t < NS_IN_SECOND /\
  (0 <= v -> 0 <= tv_sec t /\ 0 <= tv_nsec t) /\
  (v <= 0 -> tv_sec t <= 0 /\ tv_nsec t <= 0).
Proof.
  cbv zeta. cbn [build_input phase_error tv_sec tv_nsec].
  pose proof (sint32_range (sign * sample)) as Hr.
  unfold in_int32, INT32_MIN, INT32_MAX in Hr. fold (mul32 sign sample) in Hr.
  generalize dependent (mul32 sign sample). intros v Hr.
  unfold NS_IN_SECOND.
  pose proof (Z.quot_rem' v 1000000000) as Hqr.
  assert (Hpos : 0 <= v -> 0 <= Z.quot v 1000000000 /\
                 0 <= Z.rem v 1000000000 < 1000000000).
  { intros Hv. split; [apply Z.quot_pos; lia|].
    apply Z.rem_bound_pos; lia. }
  assert (Hneg : v <= 0 -> Z.quot v 1000000000 <= 0 /\
                 - 1000000000 < Z.rem v 1000000000 <= 0).
  { intros Hv. pose proof (Z.quot_opp_l v 1000000000) as Hq.
    pose proof (Z.rem_opp_l v 1000000000) as Hm.
    pose proof (Z.quot_pos (- v) 1000000000).
    pose proof (Z.rem_bound_pos (- v) 1000000000). lia. }
  destruct (Z.le_ge_cases 0 v) as [Hv | Hv];
    [destruct (Hpos Hv) | destruct (Hneg Hv)]; repeat split; try lia.
Qed.

Lemma split_is_sign_consistent_witness :
  let t := phase_error
    (build_input 1 (-1500000000) true (ctrl_values quiet_cycle) 0 0) in
  tv_sec t = -1 /\ tv_nsec t = -500000000 /\
  tv_sec t * NS_IN_SECOND + tv_nsec t = mul32 1 (-1500000000).
Proof.
  cbv zeta. split; [reflexivity|]. split; [reflexivity|].
  destruct (split_is_sign_consistent 1 (-1500000000) true
              (ctrl_values quiet_cycle) 0 0) as [H _].
  exact H.
Defined.

(** ** Errors of the wait and of the read *)

(** X14: a [select] that fails with anything but [EINTR], and a [read] that
    fails with anything but [EAGAIN] and [EINTR], end the process with
    [EXIT_FAILURE] on the spot. *)
Theorem other_errors_are_fatal (sign : Z) (st : run_state) (e : cycle_env)
    (Hsig : signals e = 0%nat)
    (Herr : select_ret e = -1 /\ select_errno e <> EINTR \/
            select_ret e <> 0 /\ select_ret e <> -1 /\ read_ret e = -1 /\
              read_errno e <> EAGAIN /\ read_errno e <> EINTR) :
  snd (iteration sign st e) = Exited EXIT_FAILURE /\
  Forall wait_or_read (fst (iteration sign st e)) /\
  transient_failure e = false.
Proof.
  assert (Ha : snd (acquire e (decrement_turns st)) = Exit EXIT_FAILURE /\
               transient_failure e = false).
  { open_acquire e (decrement_turns st). rewrite Hsig. reduce_stage.
    destruct Herr as [[Hs He] | (Hs0 & Hs1 & Hr & He1 & He2)].
    - rewrite Hs. apply Z.eqb_neq in He. cbn [Z.eqb]. rewrite He.
      split; reflexivity.
    - apply Z.eqb_neq in Hs0, Hs1, He1, He2. apply Z.eqb_eq in Hr.
      rewrite Hs0, Hs1, Hr, He1, He2. split; reflexivity. }
  destruct Ha as [Ha Hnot].
  pose proof (acquire_calls e (decrement_turns st)) as Hc.
  unfold iteration. rewrite body_stages.
  destruct (acquire e (decrement_turns st)) as [l0 r]; cbn [snd fst] in *.
  subst r. repeat split; assumption.
Qed.

Lemma other_errors_are_fatal_witness :
  let bad_descriptor :=
    {| signals := 0;
       select_ret := -1; select_errno := 9;
       read_ret := 4; read_errno := 0; read_phase_error := 0;
       get_temp_ret := 0; get_temp_value := 0;
       gnss_ret := GNSS_VALID; gnss_qErr := 0;
       ctrl_values := ctrl_values quiet_cycle;
       od_process_ret := 0; od_process_output := idle_output;
       write_ret := 4; write_errno := 0;
       calib_params := None; calib_results := None;
       apply_output_ret := 0 |} in
  snd (iteration 1 (initial_state None) bad_descriptor)
  = Exited EXIT_FAILURE.
Proof.
  cbv zeta.
  match goal with
  | |- snd (iteration _ _ ?e) = _ =>
      destruct (other_errors_are_fatal 1 (initial_state None) e) as [H _]
  end.
  - reflexivity.
  - left. split; [reflexivity | discriminate].
  - exact H.
Defined.

(** ** Byte counts *)

(** X15: the byte counts of [read] and [write] are not looked at.  With the
    flag clear, any return of [read] other than -1 (0 included) makes the
    cycle go on to the State Collector with the content of [phase_error];
    and in a phase jump any return of [write] that is not negative, short
    writes included, is a success: the flag is set and the process sleeps. *)
Theorem byte_counts_are_not_checked (sign : Z) (st : run_state)
    (e : cycle_env)
    (Hloop : loop st = true) (Hflag : ignore_next_irq st = false)
    (Hready : data_ready e = true) :
  In call_oscillator_get_temp (fst (iteration sign st e)) /\
  (forall input,
     In (call_od_process input) (fst (iteration sign st e)) ->
     0 <= od_process_ret e ->
     action (od_process_output e) = PHASE_JUMP ->
     0 <= write_ret e ->
     In (sys_sleep 5) (fst (iteration sign st e)) /\
     snd (body sign e (decrement_turns st)) =
       Next (set_ignore_next_irq
               (after_signals e (decrement_turns st)) true)).
Proof.
  split; [apply unsuppressed_cycle; assumption|].
  intros input Hcall Hok Hact Hret.
  pose proof (phase_jump_body sign st e input Hcall Hok Hact) as Hbody.
  cbv zeta in Hbody.
  destruct (Z.eqb_spec (write_ret e) (-1)) as [Heq | _]; [lia|].
  destruct (Z.ltb_spec (write_ret e) 0) as [Hlt | _]; [lia|].
  split.
  - apply iteration_calls; [discriminate|]. rewrite Hbody. find_in_trace.
  - rewrite Hbody. reflexivity.
Qed.

Lemma byte_counts_are_not_checked_witness :
  let short :=
    {| signals := 0;
       select_ret := 1; select_errno := 0;
       read_ret := 0; read_errno := 0; read_phase_error := 0;
       get_temp_ret := 0; get_temp_value := 0;
       gnss_ret := GNSS_VALID; gnss_qErr := 0;
       ctrl_values := ctrl_values quiet_cycle;
       od_process_ret := 0;
       od_process_output :=
         {| setpoint := 0; action := PHASE_JUMP; value_phase_ctrl := 200 |};
       write_ret := 1; write_errno := 0;
       calib_params := None; calib_results := None;
       apply_output_ret := 0 |} in
  In (sys_sleep 5) (fst (iteration 1 (initial_state None) short)).
Proof.
  cbv zeta.
  match goal with
  | |- In _ (fst (iteration _ _ ?e)) =>
      destruct (byte_counts_are_not_checked 1 (initial_state None) e)
        as [_ H]
  end.
  - reflexivity.
  - reflexivity.
  - reflexivity.
  - match type of H with
    | forall input, In _ (fst (iteration _ _ ?e)) -> _ =>
        destruct (H (cycle_input 1 e)) as [Hsleep _]
    end.
    + vm_compute. tauto.
    + cbn. lia.
    + reflexivity.
    + cbn. lia.
    + exact Hsleep.
Defined.
